(** * nia-mcp: the upstream fetch engine and the response formatter

    A shallow embedding of [src/index.ts]: the retry loop and the response
    decoding of [fetchContextFromNia], and the text formatting done by the
    [lookup_codebase_context] tool handler.

    - Strings are sequences of 8-bit code units (the Latin-1 range of the
      UTF-16 code units of the source); the platform functions the source
      calls on them are written out in [JsString], the values of parsed
      JSON documents in [Json], the two regular expressions in
      [SourcesRegex].
    - [JSON.parse] is a parameter of the engine, and so is the network: a
      function from the number of the call and the request to the way the
      call ends.
    - The loop is cut after a number of iterations ([fuel]); a run is
      either still in the loop or has returned, and carries the counters
      and the backoff delays waited so far.
    - Logging, the timers and the race of the handler against the tool
      deadline are left out. *)

From Stdlib Require Import String Ascii List ZArith Lia Bool Arith.
From Stdlib Require Import DecimalString.
Import ListNotations.
Open Scope string_scope.
Open Scope nat_scope.
Set Warnings "-register-all,-abstract-large-number".

(** ** Platform: the string methods used by the source *)

Module JsString.

(** The line feed, written "\n" in the source. *)
Definition nl : string := String (ascii_of_nat 10) EmptyString.

(** The double quote character. *)
Definition dq : string := String (ascii_of_nat 34) EmptyString.

(** [s.startsWith(pat)] *)
Definition startsWith (s pat : string) : bool := prefix pat s.

(** [s.includes(pat)] *)
Fixpoint includes (s pat : string) : bool :=
  if prefix pat s then true
  else match s with
       | EmptyString => false
       | String _ s' => includes s' pat
       end.

(** [s.substring(0, n)] *)
Fixpoint take (n : nat) (s : string) : string :=
  match n, s with
  | S k, String c s' => String c (take k s')
  | _, _ => EmptyString
  end.

(** [s.substring(n)] *)
Fixpoint drop (n : nat) (s : string) : string :=
  match n, s with
  | S k, String _ s' => drop k s'
  | _, _ => s
  end.

(** [c.toLowerCase()] on one code unit: A-Z, and the Latin-1 capitals
    0xC0-0xDE other than the multiplication sign 0xD7. *)
Definition lowerChar (c : ascii) : ascii :=
  let n := nat_of_ascii c in
  if ((65 <=? n) && (n <=? 90))
     || ((192 <=? n) && (n <=? 222) && negb (n =? 215))
  then ascii_of_nat (n + 32) else c.

(** [s.toLowerCase()] *)
Fixpoint toLowerCase (s : string) : string :=
  match s with
  | EmptyString => EmptyString
  | String c s' => String (lowerChar c) (toLowerCase s')
  end.

(** White space and line terminators, as [trim] sees them: TAB, LF, VT,
    FF, CR, SP and NBSP. *)
Definition isSpace (c : ascii) : bool :=
  let n := nat_of_ascii c in
  ((9 <=? n) && (n <=? 13)) || (n =? 32) || (n =? 160).

Fixpoint trimStart (s : string) : string :=
  match s with
  | EmptyString => EmptyString
  | String c s' => if isSpace c then trimStart s' else s
  end.

Fixpoint trimEnd (s : string) : string :=
  match s with
  | EmptyString => EmptyString
  | String c s' =>
      match trimEnd s' with
      | EmptyString => if isSpace c then EmptyString else String c EmptyString
      | t => String c t
      end
  end.

(** [s.trim()] *)
Definition trim (s : string) : string := trimEnd (trimStart s).

(** [s === ""], which is how the source tests a string for falsiness. *)
Definition isEmpty (s : string) : bool :=
  match s with EmptyString => true | _ => false end.

(** [s.split(sep)] for a non-empty separator: the pieces between the
    occurrences of [sep] found from left to right without overlap.
    [skip] counts the code units of a separator still to be passed, [cur]
    is the piece read so far. *)
Fixpoint splitFrom (sep s : string) (skip : nat) (cur : string) : list string :=
  match s with
  | EmptyString => [cur]
  | String c s' =>
      match skip with
      | S k => splitFrom sep s' k cur
      | O =>
          if prefix sep s
          then cur :: splitFrom sep s' (String.length sep - 1) EmptyString
          else splitFrom sep s' 0 (cur ++ String c EmptyString)
      end
  end.

Definition split (s sep : string) : list string := splitFrom sep s 0 EmptyString.

(** [s.lastIndexOf(pat, pos)]: the greatest index [i <= pos] at which
    [pat] occurs in [s], or -1.  [i] is the index of the suffix [s]
    looked at, [best] the last occurrence seen. *)
Fixpoint lastIndexFrom (pat s : string) (i pos : nat) (best : Z) : Z :=
  if pos <? i then best
  else
    let best' := if prefix pat s then Z.of_nat i else best in
    match s with
    | EmptyString => best'
    | String _ s' => lastIndexFrom pat s' (S i) pos best'
    end.

Definition lastIndexOf (s pat : string) (pos : Z) : Z :=
  lastIndexFrom pat s 0 (Z.to_nat pos) (-1).

(** [s.length] *)
Definition len (s : string) : Z := Z.of_nat (String.length s).

(** [arr.join(sep)] *)
Fixpoint join (sep : string) (l : list string) : string :=
  match l with
  | [] => EmptyString
  | [x] => x
  | x :: l' => x ++ sep ++ join sep l'
  end.

(** String(n) for a non-negative integer. *)
Definition ofNat (n : nat) : string := NilEmpty.string_of_uint (Nat.to_uint n).

(** String(z) for an integer. *)
Definition ofZ (z : Z) : string := NilZero.string_of_int (Z.to_int z).

End JsString.

Import JsString.

(** ** Platform: JSON values as the source reads them *)

Module Json.

(** A JSON number is an IEEE double.  The engine observes two things of
    one: whether it is truthy (neither zero nor NaN) and the text that
    string concatenation gives it. *)
Record Number : Type := mkNumber { num_truthy : bool; num_text : string }.

(** What [JSON.parse] builds.  An object keeps its members in source
    order; of two members with one key the later is the one read. *)
Inductive JSON : Type :=
| JNull
| JBool (b : bool)
| JNum (n : Number)
| JStr (s : string)
| JArr (l : list JSON)
| JObj (m : list (string * JSON)).

(** A value read from a parsed document: [None] is [undefined]. *)
Definition Value : Type := option JSON.

(** The member of an object under a key. *)
Fixpoint lookup (k : string) (m : list (string * JSON)) : Value :=
  match m with
  | [] => None
  | (k', v) :: m' =>
      match lookup k m' with
      | Some later => Some later
      | None => if String.eqb k k' then Some v else None
      end
  end.

(** [v.name] for a value that is neither [null] nor [undefined], and for
    the names the engine reads ([choices], [delta], [message],
    [content]): none of them is defined on a prototype, so only an
    object can have one. *)
Definition member (v : JSON) (name : string) : Value :=
  match v with
  | JObj m => lookup name m
  | _ => None
  end.

(** [v[0]] for a value that is neither [null] nor [undefined]: the first
    element of an array, the first code unit of a string, the member "0"
    of an object. *)
Definition first (v : JSON) : Value :=
  match v with
  | JArr (x :: _) => Some x
  | JStr (String c _) => Some (JStr (String c EmptyString))
  | JObj m => lookup "0" m
  | _ => None
  end.

(** [v?.name] and [v?.[0]]: [undefined] on [null] and [undefined]. *)
Definition optMember (v : Value) (name : string) : Value :=
  match v with
  | None | Some JNull => None
  | Some x => member x name
  end.

Definition optFirst (v : Value) : Value :=
  match v with
  | None | Some JNull => None
  | Some x => first x
  end.

(** Truthiness, as [if (v)] and [!v] see it. *)
Definition truthy (v : Value) : bool :=
  match v with
  | None | Some JNull => false
  | Some (JBool b) => b
  | Some (JNum n) => num_truthy n
  | Some (JStr s) => negb (isEmpty s)
  | Some (JArr _) | Some (JObj _) => true
  end.

Definition hasKey (k : string) (m : list (string * JSON)) : bool :=
  match lookup k m with Some _ => true | None => false end.

(** The text that [str += v] appends, [None] when the conversion throws
    a TypeError.  An array is joined with commas, its [null] elements
    giving the empty text; an object gives "[object Object]" unless a
    member named [toString] hides the inherited method. *)
Fixpoint toText (v : JSON) : option string :=
  match v with
  | JNull => Some "null"
  | JBool true => Some "true"
  | JBool false => Some "false"
  | JNum n => Some (num_text n)
  | JStr s => Some s
  | JArr l =>
      let element (x : JSON) : option string :=
        match x with JNull => Some EmptyString | _ => toText x end in
      (fix joined (l : list JSON) : option string :=
         match l with
         | [] => Some EmptyString
         | [x] => element x
         | x :: l' =>
             match element x, joined l' with
             | Some a, Some b => Some (a ++ "," ++ b)
             | _, _ => None
             end
         end) l
  | JObj m => if hasKey "toString" m then None else Some "[object Object]"
  end.

End Json.

Import Json.

(** ** The two regular expressions that read the Sources section

    [/\*\*Sources:\*\*\n((?:- `[^`]+`\n?)+)/] finds the section and
    [/- `([^`]+)`/g] its entries.  Neither can backtrack to a different
    match: [[^`]+] has to stop at the next backtick, and giving back an
    optional line feed leaves a code unit that starts no entry. *)

Module SourcesRegex.

Definition backtick : ascii := ascii_of_nat 96.

(** The header, "**Sources:**" and a line feed. *)
Definition header : string := "**Sources:**" ++ nl.

(** [[^`]*`] at the start of [s]: the code units before the next
    backtick. *)
Fixpoint quoted (s : string) : option string :=
  match s with
  | EmptyString => None
  | String c s' =>
      if Ascii.eqb c backtick then Some EmptyString
      else option_map (String c) (quoted s')
  end.

(** [/- `([^`]+)`/] matched at the start of [s]: the captured
    identifier.  The match is [String.length id + 4] code units long. *)
Definition entry (s : string) : option string :=
  if prefix "- `" s then
    match quoted (drop 3 s) with
    | Some (String c id) => Some (String c id)
    | _ => None
    end
  else None.

(** The length of what [(?:- `[^`]+`\n?)+] matches at the start of a
    text, 0 when not even one entry is there.  [skip] counts the code
    units of the entry being passed. *)
Fixpoint entriesLength (s : string) (skip : nat) : nat :=
  match s with
  | EmptyString => 0
  | String _ s' =>
      match skip with
      | S k => S (entriesLength s' k)
      | O =>
          match entry s with
          | Some id =>
              let n := String.length id + 4 in
              let n' := if prefix nl (drop n s) then S n else n in
              S (entriesLength s' (n' - 1))
          | None => 0
          end
      end
  end.

(** The section regular expression matched at the start of [s]: its
    capture group. *)
Definition sectionAt (s : string) : option string :=
  if prefix header s then
    let t := drop (String.length header) s in
    match entriesLength t 0 with
    | O => None
    | n => Some (take n t)
    end
  else None.

(** [content.match(section)]: the capture group of the leftmost match. *)
Fixpoint sourceMatch (s : string) : option string :=
  match sectionAt s with
  | Some group => Some group
  | None =>
      match s with
      | EmptyString => None
      | String _ s' => sourceMatch s'
      end
  end.

(** The [while ((match = sourceRegex.exec(sourceText)) !== null)] loop:
    the captures of the successive matches, each search starting where
    the match before it ended. *)
Fixpoint execAll (s : string) (skip : nat) : list string :=
  match s with
  | EmptyString => []
  | String _ s' =>
      match skip with
      | S k => execAll s' k
      | O =>
          match entry s with
          | Some id => id :: execAll s' (String.length id + 3)
          | None => execAll s' 0
          end
      end
  end.

(** The block shared by the stream path and the JSON path. *)
Definition extractSources (content : string) : list string :=
  match sourceMatch content with
  | Some sourceText => execAll sourceText 0
  | None => []
  end.

End SourcesRegex.

Import SourcesRegex.

(** ** The data of the engine *)

(** What the engine returns: [sources] and [statusCode] are optional
    fields. *)
Record FetchResult : Type := mkResult {
  content : string;
  sources : option (list string);
  statusCode : option Z
}.

(** A value caught by [catch (error: unknown)]: an [Error] object with its
    [name] and [message], or any other value, kept as the text
    [String(error)] gives it. *)
Inductive Thrown : Type :=
| ErrorObject (name message : string)
| OtherValue (text : string).

(** The response [fetch] resolves with.  [body] is [None] for a response
    without a body (a 204 for one). *)
Record Response : Type := mkResponse {
  status : Z;
  contentType : option string;
  body : option string
}.

(** [response.ok] *)
Definition ok (r : Response) : bool :=
  ((200 <=? status r) && (status r <=? 299))%Z.

(** One message of the request body and the body itself, before
    [JSON.stringify]. *)
Record Message : Type := mkMessage { role : string; text : string }.

Record RequestBody : Type := mkRequestBody {
  model : string;
  messages : list Message;
  stream : bool;
  max_tokens : Z
}.

Record Request : Type := mkRequest {
  url : string;
  method : string;
  headers : list (string * string);
  payload : RequestBody
}.

(** How one call of [fetch] ends: it rejects (the abort after 180 seconds
    is one way, a failure while the body arrives another), or it resolves
    with a response whose body has arrived. *)
Inductive Outcome : Type :=
| Rejects (error : Thrown)
| Resolves (response : Response).

(** The variables of the retry loop, with what the run has done so far:
    [attempts] counts the calls of [fetch], [waits] lists the backoff
    delays in milliseconds, oldest first. *)
Record RetryState : Type := mkState {
  retryCount : nat;
  timeoutRetryCount : nat;
  lastError : option Thrown;
  attempts : nat;
  waits : list nat
}.

(** A run of the engine cut after a number of loop iterations: still in
    the loop, or returned.  The declared return type allows [null], here
    [None]. *)
Inductive Run : Type :=
| Pending (st : RetryState)
| Returned (result : option FetchResult) (st : RetryState).

(** ** Constants *)

Definition NIA_API_BASE : string := "https://api.trynia.ai".
Definition USER_AGENT : string := "nia-mcp/1.0".
Definition maxRetries : nat := 3.
Definition maxTimeoutRetries : nat := 5.
Definition maxResponseLength : Z := 10000.

Definition elaboration : string :=
  " - Please provide detailed information about the repository's purpose, architecture, and key components.".

Definition systemMessage : string :=
  "You are an expert software engineer analyzing code repositories. Provide detailed, accurate insights about the codebase. Include specific details from the context. If information is available in the context, focus on that rather than making general statements. For repository overviews, explain the main purpose, key components, and architecture.".

Definition invalidFormatMessage : string := "Error: Invalid response format from API".

Definition authenticationMessage : string :=
  "Authentication error. Please make sure you're using a valid API key from your Nia account.".

Definition quotaMessage : string :=
  "Error, you have exceeded your quota. Please upgrade to a Pro plan for unlimited usage.".

Definition failedMessage : string := "Failed to retrieve context from Nia API".

(** A body can be read once: [response.text()] after [response.json()]
    has read it rejects with this error. *)
Definition bodyUnusable : Thrown :=
  ErrorObject "TypeError" "Body is unusable: Body has already been read".

(** ** Request shaping *)

Definition enhancedQuery (query : string) : string :=
  if includes (toLowerCase query) "repo"
     || includes (toLowerCase query) "repository"
     || includes (toLowerCase query) "what"
     || includes (toLowerCase query) "how"
  then query ++ elaboration
  else query.

Definition request (query apiKey : string) : Request :=
  {| url := NIA_API_BASE ++ "/chat/completions";
     method := "POST";
     headers := [("User-Agent", USER_AGENT);
                 ("Content-Type", "application/json");
                 ("Authorization", "Bearer " ++ apiKey)];
     payload := {| model := "gpt-4o";
                   messages := [ {| role := "system"; text := systemMessage |};
                                 {| role := "user"; text := enhancedQuery query |} ];
                   stream := true;
                   max_tokens := 1000 |} |}.

(** ** Error classes and results after the loop *)

Definition isTimeout (error : Thrown) : bool :=
  match error with
  | ErrorObject name message =>
      String.eqb name "TimeoutError" || String.eqb name "AbortError"
      || includes message "timeout" || includes message "abort"
  | OtherValue _ => false
  end.

Definition timedOutResult (n : nat) : FetchResult :=
  {| content := "Request timed out after " ++ ofNat n
                ++ " attempts. The Nia API might be experiencing high load or the query is too complex.";
     sources := None;
     statusCode := Some 408%Z |}.

(** The text of [lastError instanceof Error ? lastError.message :
    String(lastError)]; [lastError] starts as [null]. *)
Definition errorText (e : option Thrown) : string :=
  match e with
  | Some (ErrorObject _ message) => message
  | Some (OtherValue t) => t
  | None => "null"
  end.

Definition communicationResult (n : nat) (e : option Thrown) : FetchResult :=
  {| content := "Error communicating with Nia API after " ++ ofNat n
                ++ " attempts: " ++ errorText e;
     sources := None;
     statusCode := Some 500%Z |}.

(** The result for a document that is not a chat completion. *)
Definition invalidFormatResult : FetchResult :=
  {| content := invalidFormatMessage; sources := None; statusCode := Some 500%Z |}.

(** The code after the loop. *)
Definition allRetriesFailed (st : RetryState) : FetchResult :=
  if maxTimeoutRetries <=? timeoutRetryCount st
  then timedOutResult (timeoutRetryCount st)
  else communicationResult (retryCount st) (lastError st).

(** Exponential backoff of the generic class. *)
Definition backoffMs (retryCount : nat) : nat :=
  Nat.min (1000 * 2 ^ retryCount) 10000.

(** ** The engine *)

Section Engine.

(** [JSON.parse]: [None] when it throws a SyntaxError. *)
Variable JSON_parse : string -> option JSON.

(** [fullContent += v] inside the [try] of an event: a conversion that
    throws is caught there and leaves the text as it was. *)
Definition appendContent (fullContent : string) (v : Value) : string :=
  match v with
  | Some x =>
      match toText x with
      | Some t => fullContent ++ t
      | None => fullContent
      end
  | None => fullContent
  end.

(** The three places an event can carry text. *)
Definition deltaContent (jsonObj : JSON) : Value :=
  optMember (optMember (optFirst (member jsonObj "choices")) "delta") "content".

Definition messageContent (jsonObj : JSON) : Value :=
  optMember (optMember (optFirst (member jsonObj "choices")) "message") "content".

Definition rawContent (jsonObj : JSON) : Value := member jsonObj "content".

(** The body of [for (const event of events)], from the text gathered so
    far to the text after the event. *)
Definition processEvent (fullContent event : string) : string :=
  if isEmpty (trim event) then fullContent
  else if includes event "data: [DONE]" then fullContent
  else if startsWith event "data: " then
    let jsonStr := trim (drop 6 event) in
    if isEmpty jsonStr then fullContent
    else
      match JSON_parse jsonStr with
      | None => fullContent
      | Some JNull => fullContent
      | Some jsonObj =>
          if truthy (deltaContent jsonObj)
          then appendContent fullContent (deltaContent jsonObj)
          else if truthy (messageContent jsonObj)
          then appendContent fullContent (messageContent jsonObj)
          else if truthy (rawContent jsonObj)
          then appendContent fullContent (rawContent jsonObj)
          else fullContent
      end
  else fullContent.

(** The stream path: [textResponse] is what [response.text()] gave. *)
Definition readStream (textResponse : string) : FetchResult :=
  let fullContent :=
    fold_left processEvent (split textResponse (nl ++ nl)) EmptyString in
  {| content := fullContent;
     sources := Some (extractSources fullContent);
     statusCode := None |}.

(** [response.text()] as the first read of the body. *)
Definition bodyText (r : Response) : string :=
  match body r with
  | Some b => b
  | None => EmptyString
  end.

(** [response.text()] after [response.json()] read the body: it rejects,
    unless the response has no body at all. *)
Definition textAfterJson (r : Response) : Thrown + string :=
  match body r with
  | Some _ => inl bodyUnusable
  | None => inr EmptyString
  end.

(** The [catch (jsonError)] block. *)
Definition plainTextFallback (r : Response) : Thrown + FetchResult :=
  match textAfterJson r with
  | inl e => inl e
  | inr textResponse =>
      inr {| content := take 2000 textResponse;
             sources := Some [];
             statusCode := None |}
  end.

(** The JSON path.  [content.match] is a method of strings only: on any
    other [content] the call throws a TypeError, which the same [catch]
    takes. *)
Definition readJson (r : Response) : Thrown + FetchResult :=
  match JSON_parse (bodyText r) with
  | None => plainTextFallback r
  | Some data =>
      let choices := member data "choices" in
      let message := optMember (optFirst choices) "message" in
      if negb (truthy (Some data)) || negb (truthy choices)
         || negb (truthy (optFirst choices)) || negb (truthy message)
      then inr invalidFormatResult
      else
        match optMember message "content" with
        | Some (JStr content) =>
            inr {| content := content;
                   sources := Some (extractSources content);
                   statusCode := None |}
        | _ => plainTextFallback r
        end
  end.

(** What the inner [try] does with a response: a result to return, or
    an error thrown to the [catch] of the loop. *)
Definition readResponse (r : Response) : Thrown + FetchResult :=
  if negb (ok r) then
    inr {| content := EmptyString; sources := None; statusCode := Some (status r) |}
  else
    match contentType r with
    | Some ct =>
        if negb (isEmpty ct) && includes ct "text/event-stream"
        then inr (readStream (bodyText r))
        else readJson r
    | None => readJson r
    end.

(** One pass through the [try]. *)
Definition attempt (o : Outcome) : Thrown + FetchResult :=
  match o with
  | Rejects error => inl error
  | Resolves response => readResponse response
  end.

(** The network: how the call of [fetch] number [n] (from 0) ends, given
    the request made. *)
Variable network : nat -> Request -> Outcome.

Variables query apiKey : string.

Definition startState : RetryState :=
  {| retryCount := 0; timeoutRetryCount := 0; lastError := None;
     attempts := 0; waits := [] |}.

(** The [while] loop and the code after it, cut after [fuel]
    iterations. *)
Fixpoint retryLoop (fuel : nat) (st : RetryState) : Run :=
  match fuel with
  | O => Pending st
  | S fuel' =>
      if (retryCount st <? maxRetries) || (timeoutRetryCount st <? maxTimeoutRetries) then
        let called :=
          {| retryCount := retryCount st; timeoutRetryCount := timeoutRetryCount st;
             lastError := lastError st; attempts := S (attempts st); waits := waits st |} in
        match attempt (network (attempts st) (request query apiKey)) with
        | inr result => Returned (Some result) called
        | inl error =>
            if isTimeout error then
              let n := S (timeoutRetryCount st) in
              if n <? maxTimeoutRetries then
                retryLoop fuel'
                  {| retryCount := retryCount st; timeoutRetryCount := n;
                     lastError := lastError st; attempts := S (attempts st);
                     waits := waits st ++ [1000 * n] |}
              else
                let st' :=
                  {| retryCount := retryCount st; timeoutRetryCount := n;
                     lastError := lastError st; attempts := S (attempts st);
                     waits := waits st |} in
                if (maxRetries <=? retryCount st') && (maxTimeoutRetries <=? timeoutRetryCount st')
                then Returned (Some (allRetriesFailed st')) st'
                else retryLoop fuel' st'
            else
              let n := S (retryCount st) in
              let st' :=
                {| retryCount := n; timeoutRetryCount := timeoutRetryCount st;
                   lastError := Some error; attempts := S (attempts st);
                   waits := if n <? maxRetries then waits st ++ [backoffMs n] else waits st |} in
              if (maxRetries <=? retryCount st') && (maxTimeoutRetries <=? timeoutRetryCount st')
              then Returned (Some (allRetriesFailed st')) st'
              else retryLoop fuel' st'
        end
      else Returned (Some (allRetriesFailed st)) st
  end.

Definition fetchContextFromNia (fuel : nat) : Run := retryLoop fuel startState.

End Engine.

(** ** The tool handler: from the result of the engine to the text *)

(** The note put after a trimmed content. *)
Definition trimNote (originalLength : Z) : string :=
  nl ++ nl ++ "[Content trimmed for display. The original response was "
  ++ ofZ originalLength ++ " characters long.]".

(** [trimmedContent]: the content, cut when longer than
    [maxResponseLength].  [maxResponseLength * 0.75] is 7500. *)
Definition trimmedContent (content : string) : string :=
  if (maxResponseLength <? len content)%Z then
    let breakPoint := lastIndexOf content (nl ++ nl) maxResponseLength in
    if (7500 <? breakPoint)%Z
    then take (Z.to_nat breakPoint) content ++ trimNote (len content)
    else take (Z.to_nat maxResponseLength) content ++ "..." ++ trimNote (len content)
  else content.

(** The Sources lines put after the content. *)
Definition sourcesSection (sources : option (list string)) : string :=
  match sources with
  | Some (src :: rest) =>
      nl ++ nl ++ "Sources:" ++ nl
      ++ join nl (map (fun src => "- " ++ src) (src :: rest))
  | _ => EmptyString
  end.

(** [result.statusCode === n] and [if (result.statusCode)] on the optional
    field. *)
Definition statusIs (code : option Z) (n : Z) : bool :=
  match code with
  | Some c => (c =? n)%Z
  | None => false
  end.

Definition statusTruthy (code : option Z) : bool :=
  match code with
  | Some c => negb (c =? 0)%Z
  | None => false
  end.

(** [${result.statusCode}] where the field is present. *)
Definition statusText (code : option Z) : string :=
  match code with
  | Some c => ofZ c
  | None => "undefined"
  end.

(** The text of the one content block the handler answers with, once the
    race between the engine and the tool deadline gave [result]. *)
Definition formatResponse (user_query : string) (result : option FetchResult) : string :=
  match result with
  | None => failedMessage
  | Some result =>
      if statusIs (statusCode result) 403 || statusIs (statusCode result) 401
      then authenticationMessage
      else if statusIs (statusCode result) 402
      then quotaMessage
      else if statusTruthy (statusCode result)
      then failedMessage ++ ": HTTP error " ++ statusText (statusCode result)
      else
        "Context for " ++ dq ++ user_query ++ dq ++ ":" ++ nl ++ nl
        ++ trimmedContent (content result)
        ++ sourcesSection (sources result)
  end.

(** ** A reader for JSON texts, to run the engine on concrete bodies

    The engine is stated over any [JSON_parse].  [JsonText.parse] reads
    the part of the JSON grammar the examples are written in: objects,
    arrays, strings with the single-letter escapes, integers and the three
    literals. *)

Module JsonText.

Definition isBlank (c : ascii) : bool :=
  let n := nat_of_ascii c in
  (n =? 32) || (n =? 9) || (n =? 10) || (n =? 13).

Fixpoint skipBlanks (s : string) : string :=
  match s with
  | String c s' => if isBlank c then skipBlanks s' else s
  | EmptyString => s
  end.

Definition unescape (c : ascii) : option ascii :=
  let n := nat_of_ascii c in
  if (n =? 34) || (n =? 92) || (n =? 47) then Some c
  else if n =? 110 then Some (ascii_of_nat 10)
  else if n =? 116 then Some (ascii_of_nat 9)
  else if n =? 114 then Some (ascii_of_nat 13)
  else if n =? 98 then Some (ascii_of_nat 8)
  else if n =? 102 then Some (ascii_of_nat 12)
  else None.

(** The characters of a string literal after its opening quote, and what
    follows the closing quote. *)
Fixpoint readChars (s : string) : option (string * string) :=
  match s with
  | EmptyString => None
  | String c s' =>
      if nat_of_ascii c =? 34 then Some (EmptyString, s')
      else if nat_of_ascii c =? 92 then
        match s' with
        | String e s'' =>
            match unescape e, readChars s'' with
            | Some ch, Some (t, rest) => Some (String ch t, rest)
            | _, _ => None
            end
        | EmptyString => None
        end
      else if nat_of_ascii c <? 32 then None
      else
        match readChars s' with
        | Some (t, rest) => Some (String c t, rest)
        | None => None
        end
  end.

Definition isDigit (c : ascii) : bool :=
  (48 <=? nat_of_ascii c) && (nat_of_ascii c <=? 57).

(** The digits at the start of [s], read after the value [acc]. *)
Fixpoint readDigits (s : string) (acc : Z) : Z * string :=
  match s with
  | String c s' =>
      if isDigit c
      then readDigits s' (10 * acc + Z.of_nat (nat_of_ascii c - 48))%Z
      else (acc, s)
  | EmptyString => (acc, s)
  end.

Definition integer (z : Z) : JSON :=
  JNum {| num_truthy := negb (z =? 0)%Z; num_text := ofZ z |}.

Definition readNumber (s : string) : option (JSON * string) :=
  match s with
  | String c s' =>
      if nat_of_ascii c =? 45 then
        match s' with
        | String d _ =>
            if isDigit d
            then let (z, rest) := readDigits s' 0 in Some (integer (- z), rest)
            else None
        | EmptyString => None
        end
      else if isDigit c
      then let (z, rest) := readDigits s 0 in Some (integer z, rest)
      else None
  | EmptyString => None
  end.

Fixpoint readValue (fuel : nat) (s : string) : option (JSON * string) :=
  match fuel with
  | O => None
  | S fuel' =>
      match skipBlanks s with
      | EmptyString => None
      | String c s' as t =>
          if nat_of_ascii c =? 123 then
            match skipBlanks s' with
            | String c' rest =>
                if nat_of_ascii c' =? 125 then Some (JObj [], rest)
                else
                  match readMembers fuel' (String c' rest) with
                  | Some (m, rest') => Some (JObj m, rest')
                  | None => None
                  end
            | EmptyString => None
            end
          else if nat_of_ascii c =? 91 then
            match skipBlanks s' with
            | String c' rest =>
                if nat_of_ascii c' =? 93 then Some (JArr [], rest)
                else
                  match readElements fuel' (String c' rest) with
                  | Some (l, rest') => Some (JArr l, rest')
                  | None => None
                  end
            | EmptyString => None
            end
          else if nat_of_ascii c =? 34 then
            match readChars s' with
            | Some (str, rest) => Some (JStr str, rest)
            | None => None
            end
          else if prefix "true" t then Some (JBool true, drop 4 t)
          else if prefix "false" t then Some (JBool false, drop 5 t)
          else if prefix "null" t then Some (JNull, drop 4 t)
          else readNumber t
      end
  end

with readElements (fuel : nat) (s : string) : option (list JSON * string) :=
  match fuel with
  | O => None
  | S fuel' =>
      match readValue fuel' s with
      | Some (v, rest) =>
          match skipBlanks rest with
          | String c rest' =>
              if nat_of_ascii c =? 44 then
                match readElements fuel' rest' with
                | Some (l, rest'') => Some (v :: l, rest'')
                | None => None
                end
              else if nat_of_ascii c =? 93 then Some ([v], rest')
              else None
          | EmptyString => None
          end
      | None => None
      end
  end

with readMembers (fuel : nat) (s : string) : option (list (string * JSON) * string) :=
  match fuel with
  | O => None
  | S fuel' =>
      match skipBlanks s with
      | String q s' =>
          if nat_of_ascii q =? 34 then
            match readChars s' with
            | Some (key, rest) =>
                match skipBlanks rest with
                | String colon rest' =>
                    if nat_of_ascii colon =? 58 then
                      match readValue fuel' rest' with
                      | Some (v, rest'') =>
                          match skipBlanks rest'' with
                          | String c rest3 =>
                              if nat_of_ascii c =? 44 then
                                match readMembers fuel' rest3 with
                                | Some (m, rest4) => Some ((key, v) :: m, rest4)
                                | None => None
                                end
                              else if nat_of_ascii c =? 125 then Some ([(key, v)], rest3)
                              else None
                          | EmptyString => None
                          end
                      | None => None
                      end
                    else None
                | EmptyString => None
                end
            | None => None
            end
          else None
      | EmptyString => None
      end
  end.

(** The whole text has to be one value. *)
Definition parse (s : string) : option JSON :=
  match readValue (2 * String.length s + 2) s with
  | Some (v, rest) => if isEmpty (skipBlanks rest) then Some v else None
  | None => None
  end.

(** A string literal and a member, to write JSON texts without quote
    characters in the middle of a Rocq string. *)
Definition lit (s : string) : string := dq ++ s ++ dq.

Definition field (k v : string) : string := lit k ++ ":" ++ v.

End JsonText.


(** ** Vocabulary of the statements *)

(** A paragraph break (two line feeds) stands at index [i] of [content]. *)
Definition breakAt (content : string) (i : Z) : bool :=
  prefix (nl ++ nl) (drop (Z.to_nat i) content).

(** [n] copies of a code unit. *)
Fixpoint copies (n : nat) (c : ascii) : string :=
  match n with
  | O => EmptyString
  | S k => String c (copies k c)
  end.

(** The state after one more call of [fetch] that changed no counter. *)
Definition afterCall (st : RetryState) : RetryState :=
  {| retryCount := retryCount st; timeoutRetryCount := timeoutRetryCount st;
     lastError := lastError st; attempts := S (attempts st); waits := waits st |}.

(** The result for a response with a non-success status. *)
Definition statusResult (code : Z) : FetchResult :=
  {| content := EmptyString; sources := None; statusCode := Some code |}.

(** The loop condition. *)
Definition inLoop (st : RetryState) : bool :=
  (retryCount st <? maxRetries) || (timeoutRetryCount st <? maxTimeoutRetries).

(** The texts of a list, one after the other. *)
Definition concatAll (l : list string) : string := fold_right append EmptyString l.

(** The text a value adds to a string: nothing for [undefined] and for a
    value whose conversion throws. *)
Definition textOf (v : Value) : string :=
  match v with
  | Some x => match toText x with Some t => t | None => EmptyString end
  | None => EmptyString
  end.

(** The specification's reading of one event.  An event is empty, or
    holds the done marker, or starts with the data prefix and carries a
    payload, or is something else. *)
Inductive EventKind : Type :=
| EmptyEvent
| DoneMarker
| DataEvent (payload : string)
| OtherEvent.

Definition eventKind (event : string) : EventKind :=
  if isEmpty (trim event) then EmptyEvent
  else if includes event "data: [DONE]" then DoneMarker
  else if startsWith event "data: " then DataEvent (trim (drop 6 event))
  else OtherEvent.

Section Fragments.

Variable JSON_parse : string -> option JSON.

(** The field chosen in a parsed payload: the first of the delta content,
    the message content and the top-level content that is truthy. *)
Definition chosenField (jsonObj : JSON) : Value :=
  if truthy (deltaContent jsonObj) then deltaContent jsonObj
  else if truthy (messageContent jsonObj) then messageContent jsonObj
  else if truthy (rawContent jsonObj) then rawContent jsonObj
  else None.

(** The fragment an event contributes. *)
Definition eventFragment (event : string) : string :=
  match eventKind event with
  | DataEvent payload =>
      if isEmpty payload then EmptyString
      else
        match JSON_parse payload with
        | Some jsonObj => textOf (chosenField jsonObj)
        | None => EmptyString
        end
  | EmptyEvent | DoneMarker | OtherEvent => EmptyString
  end.

End Fragments.

(** An identifier as the entry pattern captures it: not empty and free
    of backticks. *)
Definition isIdentifier (id : string) : bool :=
  negb (isEmpty id) && negb (includes id "`").

(** One entry line of a Sources section. *)
Definition bullet (id : string) : string := "- `" ++ id ++ "`" ++ nl.

(** A Sources section: the header line and one entry line per
    identifier. *)
Definition trailingSection (ids : list string) : string :=
  header ++ concatAll (map bullet ids).

(** One entry as the section's regular expression takes it: the line
    feed after the closing backtick may be there or not. *)
Definition entryText (e : string * bool) : string :=
  "- `" ++ fst e ++ "`" ++ (if snd e then nl else EmptyString).

(** A Sources section in general: the header line and its entries, each
    with its identifier and whether a line feed follows it. *)
Definition sectionOf (entries : list (string * bool)) : string :=
  header ++ concatAll (map entryText entries).

Definition identifiers (entries : list (string * bool)) : list string :=
  map fst entries.

Definition wellQuoted (entries : list (string * bool)) : bool :=
  forallb (fun e => isIdentifier (fst e)) entries.

(** The test of the content type that selects the stream path. *)
Definition isEventStream (r : Response) : bool :=
  match contentType r with
  | Some ct => negb (isEmpty ct) && includes ct "text/event-stream"
  | None => false
  end.

(** The state after [n] iterations that all ended in a timeout-class
    error: the backoff is waited after the first four only. *)
Definition timeoutState (n : nat) : RetryState :=
  {| retryCount := 0; timeoutRetryCount := n; lastError := None; attempts := n;
     waits := map (fun k => 1000 * k) (seq 1 (Nat.min n 4)) |}.

(** The state after [n] iterations that all ended in the generic-class
    error [e]: the backoff is waited after the first two only. *)
Definition genericState (e : Thrown) (n : nat) : RetryState :=
  {| retryCount := n; timeoutRetryCount := 0;
     lastError := match n with O => None | S _ => Some e end;
     attempts := n;
     waits := map backoffMs (seq 1 (Nat.min n 2)) |}.

(** Where a result of the engine comes from: a response with a
    non-success status, a document that is no chat completion, the end of
    the retries, or the body of a response. *)
Inductive Origin : FetchResult -> Prop :=
| FromStatus (code : Z) : Origin (statusResult code)
| FromInvalidFormat : Origin invalidFormatResult
| FromTimeouts (n : nat) : Origin (timedOutResult n)
| FromBody (c : string) (l : list string) :
    Origin {| content := c; sources := Some l; statusCode := None |}.

(** The four tests of the JSON path on a parsed document: one that fails
    makes the document an invalid response. *)
Definition shapeMismatch (data : JSON) : bool :=
  negb (truthy (Some data))
  || negb (truthy (member data "choices"))
  || negb (truthy (optFirst (member data "choices")))
  || negb (truthy (optMember (optFirst (member data "choices")) "message")).

(** ** Inputs of the examples *)

(** 12000 code units with one paragraph break, at index 9500. *)
Definition longAnswer : string :=
  copies (Z.to_nat 9500) "a" ++ nl ++ nl ++ copies (Z.to_nat 2498) "b".


(** A network that answers every call with one response. *)
Definition always (r : Response) : nat -> Request -> Outcome :=
  fun _ _ => Resolves r.

(** A network on which every call fails with one error. *)
Definition alwaysFails (e : Thrown) : nat -> Request -> Outcome :=
  fun _ _ => Rejects e.

Definition unauthorized : Response :=
  {| status := 401; contentType := Some "application/json";
     body := Some "{}" |}.

(** Payloads in the three formats, written as JSON texts. *)
Definition deltaPayload (t : string) : string :=
  "{" ++ JsonText.field "choices"
           ("[{" ++ JsonText.field "delta" ("{" ++ JsonText.field "content" (JsonText.lit t) ++ "}") ++ "}]")
      ++ "}".

Definition messagePayload (t : string) : string :=
  "{" ++ JsonText.field "choices"
           ("[{" ++ JsonText.field "message" ("{" ++ JsonText.field "content" (JsonText.lit t) ++ "}") ++ "}]")
      ++ "}".

Definition rawPayload (t : string) : string :=
  "{" ++ JsonText.field "content" (JsonText.lit t) ++ "}".


(** A JSON string literal's characters for a text: the line feed, the
    quote and the backslash are escaped. *)
Fixpoint escaped (s : string) : string :=
  match s with
  | EmptyString => EmptyString
  | String c s' =>
      let n := nat_of_ascii c in
      if n =? 10 then String (ascii_of_nat 92) (String "n" (escaped s'))
      else if (n =? 34) || (n =? 92) then String (ascii_of_nat 92) (String c (escaped s'))
      else String c (escaped s')
  end.

(** A stream that carries a text in one raw-content event. *)
Definition streamOf (t : string) : string :=
  "data: " ++ rawPayload (escaped t) ++ nl ++ nl ++ "data: [DONE]" ++ nl ++ nl.

(** An answer that ends in a Sources section. *)
Definition citedIntro : string := "The chunker splits files by syntax nodes." ++ nl ++ nl.

Definition citedAnswer : string := citedIntro ++ trailingSection ["a"; "b"].

(** The same answer without the line feed after the last entry. *)
Definition openAnswer : string := citedIntro ++ sectionOf [("a", true); ("b", false)].

(** An answer with two Sources sections. *)
Definition twoSectionsIntro : string :=
  trailingSection ["x"] ++ nl ++ "More on the parser:" ++ nl ++ nl.

Definition twoSections : string := twoSectionsIntro ++ trailingSection ["a"; "b"].

(** A chat completion sent as one JSON document. *)
Definition completion (t : string) : Response :=
  {| status := 200; contentType := Some "application/json";
     body := Some (messagePayload (escaped t)) |}.

(** The error of an aborted call. *)
Definition aborted : Thrown := ErrorObject "AbortError" "This operation was aborted".

(** A chat completion whose message has [null] for a content. *)
Definition nullContent : Response :=
  {| status := 200; contentType := Some "application/json";
     body := Some ("{" ++ JsonText.field "choices"
                            ("[{" ++ JsonText.field "message"
                                       ("{" ++ JsonText.field "content" "null" ++ "}")
                             ++ "}]")
                   ++ "}") |}.

(** A success response that is no JSON. *)
Definition warmingUp : Response :=
  {| status := 200; contentType := Some "text/plain";
     body := Some "Service is warming up, try again." |}.

(** A success response whose JSON document is no chat completion. *)
Definition emptyObject : Response :=
  {| status := 200; contentType := Some "application/json"; body := Some "{}" |}.

(** A refused connection, a generic-class error. *)
Definition refused : Thrown := ErrorObject "TypeError" "fetch failed".

(** A network that refuses the first three calls and lets every later
    call run into the abort. *)
Definition refusedThenAborted : nat -> Request -> Outcome :=
  fun n _ => if n <? 3 then Rejects refused else Rejects aborted.

(** * The rest of the engine, the command line and the SSE endpoints *)

(** ** The retry loop seen from outside: failures before a result *)

(** The state the [catch] block of the loop leaves for an error. *)
Definition caught (st : RetryState) (error : Thrown) : RetryState :=
  if isTimeout error then
    {| retryCount := retryCount st;
       timeoutRetryCount := S (timeoutRetryCount st);
       lastError := lastError st;
       attempts := S (attempts st);
       waits := if S (timeoutRetryCount st) <? maxTimeoutRetries
                then waits st ++ [1000 * S (timeoutRetryCount st)]
                else waits st |}
  else
    {| retryCount := S (retryCount st);
       timeoutRetryCount := timeoutRetryCount st;
       lastError := Some error;
       attempts := S (attempts st);
       waits := if S (retryCount st) <? maxRetries
                then waits st ++ [backoffMs (S (retryCount st))]
                else waits st |}.

(** The test before the [break]: both counters are at or past their
    bounds. *)
Definition exhausted (st : RetryState) : bool :=
  (maxRetries <=? retryCount st) && (maxTimeoutRetries <=? timeoutRetryCount st).

(** The state after a sequence of caught errors. *)
Definition afterErrors (errors : list Thrown) (st : RetryState) : RetryState :=
  fold_left caught errors st.

(** How many errors of a sequence are of each class. *)
Definition timeoutsIn (errors : list Thrown) : nat :=
  List.length (filter isTimeout errors).

Definition genericIn (errors : list Thrown) : nat :=
  List.length (filter (fun e => negb (isTimeout e)) errors).

(** The calls before call number [n] all end in an error thrown to the
    loop, and [errors] lists those errors in order. *)
Definition failsWith (JSON_parse : string -> option JSON)
           (network : nat -> Request -> Outcome) (query apiKey : string)
           (errors : list Thrown) : Prop :=
  forall i e, nth_error errors i = Some e ->
              attempt JSON_parse (network i (request query apiKey)) = inl e.

(** The delays of a run in milliseconds, added up. *)
Definition sumWaits (l : list nat) : Z :=
  fold_right (fun w acc => (Z.of_nat w + acc)%Z) 0%Z l.

Definition totalWait (st : RetryState) : Z := sumWaits (waits st).

(** The state a run has reached. *)
Definition stateOf (r : Run) : RetryState :=
  match r with
  | Pending st => st
  | Returned _ st => st
  end.

(** A network given by the errors of its first calls and the response of
    the call after them; later calls are answered the same. *)
Definition failingThen (errors : list Thrown) (r : Response) : nat -> Request -> Outcome :=
  fun n _ => match nth_error errors n with
             | Some e => Rejects e
             | None => Resolves r
             end.

(** A network whose calls all fail, with the errors listed and then with
    the last of them. *)
Definition failingWith (errors : list Thrown) (e : Thrown) : nat -> Request -> Outcome :=
  fun n _ => match nth_error errors n with
             | Some e' => Rejects e'
             | None => Rejects e
             end.

(** What the backoff delays add up to, by the value of each counter. *)
Definition timeoutWaited (n : nat) : Z :=
  match n with
  | 0 => 0%Z | 1 => 1000%Z | 2 => 3000%Z | 3 => 6000%Z | _ => 10000%Z
  end.

Definition genericWaited (n : nat) : Z :=
  match n with
  | 0 => 0%Z | 1 => 2000%Z | _ => 6000%Z
  end.

(** The bookkeeping of a state in the loop: one call per counted failure,
    and the delays that the two counters account for. *)
Definition accounted (st : RetryState) : Prop :=
  attempts st = retryCount st + timeoutRetryCount st
  /\ List.length (waits st) = Nat.min (retryCount st) 2 + Nat.min (timeoutRetryCount st) 4
  /\ Forall (fun w => w <= 4000) (waits st)
  /\ totalWait st = (genericWaited (retryCount st) + timeoutWaited (timeoutRetryCount st))%Z.

(** A completion that carries a plain answer. *)
Definition plainCompletion : Response := completion "The parser is a Pratt parser.".


(** The state in which the answer to the fourth call is returned, after
    an abort, a refusal and another abort. *)
Definition answeredState : RetryState :=
  {| retryCount := 1; timeoutRetryCount := 2; lastError := Some refused;
     attempts := 4; waits := [1000; 2000; 2000] |}.

(** The state in which three refusals followed by five timeouts leave the
    loop. *)
Definition spentState : RetryState :=
  {| retryCount := 3; timeoutRetryCount := 5; lastError := Some refused;
     attempts := 8; waits := [2000; 4000; 1000; 2000; 3000; 4000] |}.

(** A stream whose events carry an event name before the data line, and a
    stream written without the space after the colon. *)
Definition namedEventStream : string :=
  "event: message" ++ nl ++ "data: " ++ deltaPayload "Hello" ++ nl ++ nl
  ++ "event: message" ++ nl ++ "data: " ++ deltaPayload " world" ++ nl ++ nl.

Definition compactStream : string :=
  "data:" ++ deltaPayload "Hello" ++ nl ++ nl ++ "data:[DONE]" ++ nl ++ nl.

(** The documents the JSON path takes for a chat completion: an object
    whose [choices] has a first element that is an object with a truthy
    [message]. *)
Definition hasMessage (data : JSON) : Prop :=
  exists m c fm msg,
    data = JObj m
    /\ lookup "choices" m = Some c
    /\ first c = Some (JObj fm)
    /\ lookup "message" fm = Some msg
    /\ truthy (Some msg) = true.

(** A success response with a JSON document for a body. *)
Definition jsonResponse (document : string) : Response :=
  {| status := 200; contentType := Some "application/json"; body := Some document |}.

(** ** The command line: [parseArgs] and the choice of transport in [main] *)

Module Cli.

(** [process.env], read by name. *)
Definition Env : Type := string -> option string.

(** A number as [parseInt] gives it, by what the code can see of it: NaN;
    an integer of at most 2^53 in absolute value, which a double holds as
    it is (-0 counts as 0); or a number beyond that range, where the
    double is the one nearest to the digits, or infinite, and only its
    sign is kept here. *)
Inductive Num : Type :=
| NaN
| Int (z : Z)
| Beyond (negative : bool).

Definition isNaN (n : Num) : bool :=
  match n with
  | NaN => true
  | _ => false
  end.

(** Truthiness of a number: neither zero nor NaN. *)
Definition numTruthy (n : Num) : bool :=
  match n with
  | NaN => false
  | Int z => negb (z =? 0)%Z
  | Beyond _ => true
  end.

(** The number for a sign and the integer that a run of digits writes. *)
Definition numberOf (negative : bool) (z : Z) : Num :=
  if (z <=? 2 ^ 53)%Z then Int (if negative then - z else z) else Beyond negative.

(** The [options] object; a field is [None] until a flag sets it.
    [--api-key] stores the value as it is, [undefined] included. *)
Record Options : Type := mkOptions {
  optApiKey : option string;
  optTransport : option string;
  optPort : option Num;
  optDebug : option bool
}.

Definition noOptions : Options :=
  {| optApiKey := None; optTransport := None; optPort := None; optDebug := None |}.

(** What [parseArgs] returns, with the value it leaves in the global
    [debugMode]. *)
Record Parsed : Type := mkParsed {
  apiKey : string;
  transport : string;
  port : Num;
  debugMode : bool
}.

(** String(v) for a string that may be [undefined]. *)
Definition show (v : option string) : string :=
  match v with
  | Some s => s
  | None => "undefined"
  end.

Definition isDigit (c : ascii) : bool :=
  (48 <=? nat_of_ascii c) && (nat_of_ascii c <=? 57).

(** The integer written by the digits at the start of [s], after [acc]. *)
Fixpoint digits (s : string) (acc : Z) : Z :=
  match s with
  | String c s' =>
      if isDigit c then digits s' (10 * acc + Z.of_nat (nat_of_ascii c - 48))%Z else acc
  | EmptyString => acc
  end.

(** [parseInt(s, 10)]: white space, a sign, then the longest run of
    digits; NaN without a digit there. *)
Definition parseInt (s : string) : Num :=
  let t := trimStart s in
  let signed :=
    match t with
    | String c rest =>
        if Ascii.eqb c "-" then (true, rest)
        else if Ascii.eqb c "+" then (false, rest)
        else (false, t)
    | EmptyString => (false, t)
    end in
  match snd signed with
  | String c _ =>
      if isDigit c then numberOf (fst signed) (digits (snd signed) 0) else NaN
  | EmptyString => NaN
  end.

(** [v === s] for a string that may be [undefined]. *)
Definition isString (v : option string) (s : string) : bool :=
  match v with
  | Some x => String.eqb x s
  | None => false
  end.

(** [a || b] on strings that may be [undefined]. *)
Definition truthyString (v : option string) : bool :=
  match v with
  | Some (String _ _) => true
  | _ => false
  end.

Definition orElse (a b : option string) : option string :=
  if truthyString a then a else b.

(** The callback of [args.forEach]: the options after one argument, or
    the message of the error it throws. *)
Definition readArg (options : Options) (arg : string) : string + Options :=
  if startsWith arg "--" then
    let parts := split (drop 2 arg) "=" in
    let key := hd EmptyString parts in
    let value := nth_error parts 1 in
    if String.eqb key "api-key" then
      inr {| optApiKey := value; optTransport := optTransport options;
             optPort := optPort options; optDebug := optDebug options |}
    else if String.eqb key "transport" then
      if negb (isString value "stdio") && negb (isString value "sse")
      then inl ("Invalid transport: " ++ show value ++ ". Accepted values: stdio, sse")
      else inr {| optApiKey := optApiKey options; optTransport := value;
                  optPort := optPort options; optDebug := optDebug options |}
    else if String.eqb key "port" then
      let port := parseInt (show value) in
      if isNaN port
      then inl ("Invalid port: " ++ show value ++ ". Port must be a number.")
      else inr {| optApiKey := optApiKey options; optTransport := optTransport options;
                  optPort := Some port; optDebug := optDebug options |}
    else if String.eqb key "debug" then
      inr {| optApiKey := optApiKey options; optTransport := optTransport options;
             optPort := optPort options;
             optDebug := Some (isString value "true") |}
    else inr options
  else inr options.

(** [args.forEach]: the first error ends it. *)
Fixpoint readArgs (options : Options) (args : list string) : string + Options :=
  match args with
  | [] => inr options
  | arg :: rest =>
      match readArg options arg with
      | inl message => inl message
      | inr options' => readArgs options' rest
      end
  end.

Definition missingKeyMessage : string :=
  "Nia API key not provided. Please either pass it as --api-key=YOUR_KEY or set the NIA_API_KEY environment variable.".

(** The code of [parseArgs] after the loop. *)
Definition resolve (options : Options) (env : Env) : string + Parsed :=
  match orElse (optApiKey options) (env "NIA_API_KEY") with
  | Some (String c k) =>
      inr {| apiKey := String c k;
             transport := show (orElse (orElse (optTransport options) (env "TRANSPORT"))
                                       (Some "stdio"));
             port := match optPort options with
                     | Some p =>
                         if numTruthy p
                         then p
                         else parseInt (show (orElse (env "PORT") (Some "3000")))
                     | None => parseInt (show (orElse (env "PORT") (Some "3000")))
                     end;
             debugMode := match optDebug options with
                          | Some d => d
                          | None => false
                          end |}
  | _ => inl missingKeyMessage
  end.

Definition parseArgs (args : list string) (env : Env) : string + Parsed :=
  match readArgs noOptions args with
  | inl message => inl message
  | inr options => resolve options env
  end.

(** What [main] starts: it leaves with exit code 1 on an error of
    [parseArgs], connects the server to the standard streams, listens for
    SSE on a port, or, for any other transport name, connects nothing. *)
Inductive Startup : Type :=
| ExitOne (message : string)
| OnStdio (debug : bool)
| OnSse (port : Num) (debug : bool)
| NoTransport (debug : bool).

Definition main (args : list string) (env : Env) : Startup :=
  match parseArgs args env with
  | inl message => ExitOne message
  | inr parsed =>
      if String.eqb (transport parsed) "stdio" then OnStdio (debugMode parsed)
      else if String.eqb (transport parsed) "sse" then OnSse (port parsed) (debugMode parsed)
      else NoTransport (debugMode parsed)
  end.

End Cli.

(** An environment that sets no variable, and one that sets some. *)
Definition emptyEnv : Cli.Env := fun _ => None.

Definition envOf (vars : list (string * string)) : Cli.Env :=
  fun name =>
    match find (fun kv => String.eqb (fst kv) name) vars with
    | Some kv => Some (snd kv)
    | None => None
    end.


(** ** The SSE endpoints of [main]

    The handlers that [main] registers on the Express application share
    one variable, [sseTransport].  A connection is named by the number of
    the accepted [GET /sse] request that opened it.  What the MCP library
    does with a connection is outside this file: the replies record that
    a response was handed to it. *)

Module Sse.

(** [req.query.transportType]: missing, one string, or what the query
    parser builds from repeated or bracketed parameters (an array or an
    object, with the text that a template literal gives it). *)
Inductive QueryValue : Type :=
| Missing
| Text (s : string)
| Structured (shown : string).

Definition queryTruthy (q : QueryValue) : bool :=
  match q with
  | Missing => false
  | Text s => negb (isEmpty s)
  | Structured _ => true
  end.

(** [q !== s] negated. *)
Definition queryIs (q : QueryValue) (s : string) : bool :=
  match q with
  | Text t => String.eqb t s
  | _ => false
  end.

Definition queryText (q : QueryValue) : string :=
  match q with
  | Missing => "undefined"
  | Text s => s
  | Structured shown => shown
  end.

(** [sseTransport], the requests whose [close] listener is registered and
    has not run, and the number of connections opened so far. *)
Record State : Type := mkState {
  sseTransport : option nat;
  listening : list nat;
  accepted : nat
}.

Definition initial : State :=
  {| sseTransport := None; listening := []; accepted := 0 |}.

(** What reaches the application: the four routes, and the [close] event
    of the request of a connection.  [thrown] is what the statements
    between the check of [transportType] and the assignment to
    [sseTransport] throw, if they do. *)
Inductive Event : Type :=
| GetRoot
| GetSse (transportType : QueryValue) (thrown : option Thrown)
| Closed (connection : nat)
| PostMessages
| GetHealth.

Inductive Reply : Type :=
| Page
| Status (code : Z) (text : string)
| Stream (connection : nat)
| Delegated (connection : nat)
| NoConnection
| Health (connection : string)
| NoReply.

(** The handler of [GET /sse]. *)
Definition getSse (st : State) (transportType : QueryValue) (thrown : option Thrown)
  : State * Reply :=
  let dropped :=
    {| sseTransport := None; listening := listening st; accepted := accepted st |} in
  if queryTruthy transportType && negb (queryIs transportType "sse")
  then (dropped, Status 400 ("Invalid transport type: " ++ queryText transportType))
  else
    match thrown with
    | Some error => (dropped, Status 500 ("SSE connection error: " ++ errorText (Some error)))
    | None =>
        ({| sseTransport := Some (accepted st);
            listening := accepted st :: listening st;
            accepted := S (accepted st) |},
         Stream (accepted st))
    end.

(** The listener of [close]: it runs once, for a request that registered
    it. *)
Definition closed (st : State) (connection : nat) : State :=
  if existsb (Nat.eqb connection) (listening st)
  then {| sseTransport := None;
          listening := filter (fun c => negb (c =? connection)) (listening st);
          accepted := accepted st |}
  else st.

(** The handler of [POST /messages]. *)
Definition postMessages (st : State) : Reply :=
  match sseTransport st with
  | Some connection => Delegated connection
  | None => NoConnection
  end.

(** The handler of [GET /health]: the [connection] member of its
    document. *)
Definition getHealth (st : State) : Reply :=
  Health (match sseTransport st with
          | Some _ => "established"
          | None => "none"
          end).

Definition handle (st : State) (e : Event) : State * Reply :=
  match e with
  | GetRoot => (st, Page)
  | GetSse transportType thrown => getSse st transportType thrown
  | Closed connection => (closed st connection, NoReply)
  | PostMessages => (st, postMessages st)
  | GetHealth => (st, getHealth st)
  end.

(** The state after a sequence of events, from a given state and from the
    start of the server. *)
Definition after (st : State) (events : list Event) : State :=
  fold_left (fun s e => fst (handle s e)) events st.

Definition run (events : list Event) : State := after initial events.

End Sse.

(** The listeners registered belong to connections already opened, and
    [sseTransport] holds no connection but the one opened last, with its
    listener still registered. *)
Definition wellFormed (st : Sse.State) : Prop :=
  Forall (fun c => c < Sse.accepted st) (Sse.listening st)
  /\ (forall k, Sse.sseTransport st = Some k ->
                S k = Sse.accepted st /\ In k (Sse.listening st)).

Definition isGetSse (e : Sse.Event) : bool :=
  match e with
  | Sse.GetSse _ _ => true
  | _ => false
  end.

(** A [transportType] that the handler of [GET /sse] lets through. *)
Definition lets_through (q : Sse.QueryValue) : bool :=
  negb (Sse.queryTruthy q && negb (Sse.queryIs q "sse")).

(** * Properties *)

(** ** Strings *)

Lemma length_append (a b : string) :
  String.length (a ++ b) = String.length a + String.length b.
Proof. induction a as [|c a IH]; simpl; [reflexivity | now rewrite IH]. Qed.

Lemma append_nil_r (a : string) : a ++ EmptyString = a.
Proof. induction a as [|c a IH]; simpl; [reflexivity | now rewrite IH]. Qed.

Lemma append_assoc (a b c : string) : (a ++ b) ++ c = a ++ (b ++ c).
Proof. induction a as [|x a IH]; simpl; [reflexivity | now rewrite IH]. Qed.

Lemma take_drop (n : nat) (s : string) : take n s ++ drop n s = s.
Proof.
  revert s; induction n as [|n IH]; intros [|c s]; simpl; try reflexivity.
  now rewrite IH.
Qed.

Lemma take_all (n : nat) (s : string) : String.length s <= n -> take n s = s.
Proof.
  revert s; induction n as [|n IH]; intros [|c s]; simpl; intros H; try reflexivity.
  - lia.
  - rewrite IH; [reflexivity | lia].
Qed.

Lemma take_append (a b : string) : take (String.length a) (a ++ b) = a.
Proof. induction a as [|c a IH]; simpl; [now destruct b | now rewrite IH]. Qed.

Lemma drop_append (a b : string) : drop (String.length a) (a ++ b) = b.
Proof. induction a as [|c a IH]; simpl; [reflexivity | exact IH]. Qed.

Lemma drop_S (n : nat) (c : ascii) (s : string) : drop (S n) (String c s) = drop n s.
Proof. reflexivity. Qed.

Lemma prefix_append (a b : string) : prefix a (a ++ b) = true.
Proof.
  induction a as [|c a IH]; simpl; [now destruct b |].
  destruct (ascii_dec c c) as [_|N]; [exact IH | now elim N].
Qed.

Lemma prefix_split (p s : string) : prefix p s = true -> s = p ++ drop (String.length p) s.
Proof.
  revert s; induction p as [|c p IH]; intros s H; [now destruct s |].
  destruct s as [|d s]; simpl in H; [discriminate |].
  destruct (ascii_dec c d) as [->|]; [| discriminate].
  simpl. f_equal. now apply IH.
Qed.

(** ** [includes] and [split] against their descriptions *)

Lemma includes_unfold (s pat : string) :
  includes s pat
  = if prefix pat s then true
    else match s with
         | EmptyString => false
         | String _ s' => includes s' pat
         end.
Proof. now destruct s. Qed.

(** [includes] holds exactly of the strings that contain the pattern. *)
Lemma includes_iff (s pat : string) :
  includes s pat = true <-> exists a b, s = a ++ pat ++ b.
Proof.
  split.
  - induction s as [|c s IH]; rewrite includes_unfold.
    + destruct (prefix pat EmptyString) eqn:P; [| discriminate].
      intros _. exists EmptyString, (drop (String.length pat) EmptyString).
      now apply prefix_split.
    + destruct (prefix pat (String c s)) eqn:P.
      * intros _. exists EmptyString, (drop (String.length pat) (String c s)).
        now apply prefix_split.
      * intros H. destruct (IH H) as (a & b & ->). now exists (String c a), b.
  - intros (a & b & ->). induction a as [|c a IH].
    + rewrite includes_unfold. simpl. now rewrite prefix_append.
    + change (String c a ++ pat ++ b) with (String c (a ++ pat ++ b)).
      cbn [includes]. rewrite IH. now destruct (prefix pat (String c (a ++ pat ++ b))).
Qed.

Lemma splitFrom_skip (sep s : string) :
  forall k cur, splitFrom sep s k cur = splitFrom sep (drop k s) 0 cur.
Proof.
  induction s as [|c s IH]; intros [|k] cur; try reflexivity.
  simpl. apply IH.
Qed.

Lemma splitFrom_cons (sep s : string) :
  forall k cur, exists x rest, splitFrom sep s k cur = x :: rest.
Proof.
  induction s as [|c s IH]; intros k cur; cbn [splitFrom].
  - now exists cur, [].
  - destruct k as [|k]; [| apply IH].
    destruct (prefix sep (String c s)); [do 2 eexists; reflexivity | apply IH].
Qed.

Lemma join_cons (sep x y : string) (l : list string) :
  join sep (x :: y :: l) = x ++ sep ++ join sep (y :: l).
Proof. reflexivity. Qed.

Lemma drop_length (k : nat) (s : string) : String.length (drop k s) <= String.length s.
Proof.
  revert s; induction k as [|k IH]; intros [|c s]; simpl; try lia.
  specialize (IH s). lia.
Qed.

(** Joining the pieces with the separator gives the string back. *)
Lemma join_split (s sep : string) :
  sep <> EmptyString -> join sep (split s sep) = s.
Proof.
  intros N. unfold split.
  assert (G : forall n s cur, String.length s <= n ->
                              join sep (splitFrom sep s 0 cur) = cur ++ s).
  { induction n as [|n IH]; intros t cur L.
    - destruct t; [| simpl in L; lia]. simpl. now rewrite append_nil_r.
    - destruct t as [|c t]; [simpl; now rewrite append_nil_r |].
      cbn [splitFrom]. destruct (prefix sep (String c t)) eqn:P.
      + rewrite splitFrom_skip.
        destruct (splitFrom_cons sep (drop (String.length sep - 1) t) 0 EmptyString)
          as (x & rest & E).
        pose proof (IH (drop (String.length sep - 1) t) EmptyString) as J.
        rewrite E in J |- *. rewrite join_cons, J.
        * f_equal. symmetry. etransitivity; [apply (prefix_split _ _ P) |]. f_equal.
          destruct sep as [|d sep]; [now elim N |].
          cbn [String.length drop append]. f_equal. lia.
        * pose proof (drop_length (String.length sep - 1) t). simpl in L. lia.
      + rewrite IH by (simpl in L; lia). now rewrite append_assoc. }
  now apply (G (String.length s)).
Qed.

(** ** The platform functions on small inputs *)

Example split_on_blank_lines :
  split ("a" ++ nl ++ nl ++ nl ++ "b" ++ nl ++ nl) (nl ++ nl)
  = ["a"; nl ++ "b"; EmptyString].
Proof. reflexivity. Qed.

Example lastIndexOf_positions :
  lastIndexOf "ab..cd..ef" ".." 5 = 2%Z
  /\ lastIndexOf "ab..cd..ef" ".." 6 = 6%Z
  /\ lastIndexOf "abc" ".." 9 = (-1)%Z.
Proof. repeat split. Qed.

Example trim_spaces :
  trim ("  a b " ++ nl) = "a b" /\ trim (nl ++ " ") = EmptyString.
Proof. split; reflexivity. Qed.

Example toLowerCase_letters : toLowerCase "How do REPOs work?" = "how do repos work?".
Proof. reflexivity. Qed.

Example numbers_as_text : ofNat 0 = "0" /\ ofZ 12000 = "12000" /\ ofZ 401 = "401".
Proof. repeat split. Qed.

Example toText_values :
  toText (JArr [JStr "a"; JNull; JBool true; JArr [JStr "b"; JStr "c"]]) = Some "a,,true,b,c"
  /\ toText (JObj [("k", JNull)]) = Some "[object Object]"
  /\ toText (JObj [("toString", JNull)]) = None.
Proof. repeat split. Qed.

Example parse_completion_chunk :
  JsonText.parse (deltaPayload "Hi")
  = Some (JObj [("choices", JArr [JObj [("delta", JObj [("content", JStr "Hi")])]])]).
Proof. reflexivity. Qed.

Example parse_rejects :
  JsonText.parse "{not json" = None
  /\ JsonText.parse "Service is warming up, try again." = None
  /\ JsonText.parse EmptyString = None
  /\ JsonText.parse "null" = Some JNull.
Proof. repeat split. Qed.

Example extractSources_of_answer : extractSources citedAnswer = ["a"; "b"].
Proof. reflexivity. Qed.

(** ** [lastIndexOf] finds the last occurrence at or before the position *)

Lemma lastIndexFrom_nil (pat : string) (i pos : nat) (best : Z) :
  lastIndexFrom pat EmptyString i pos best =
  if pos <? i then best else if prefix pat EmptyString then Z.of_nat i else best.
Proof. reflexivity. Qed.

Lemma lastIndexFrom_cons (pat : string) (c : ascii) (s : string) (i pos : nat) (best : Z) :
  lastIndexFrom pat (String c s) i pos best =
  if pos <? i then best
  else lastIndexFrom pat s (S i) pos (if prefix pat (String c s) then Z.of_nat i else best).
Proof. reflexivity. Qed.

Lemma lastIndexFrom_past (pat s : string) (i pos : nat) (best : Z) :
  pos < i -> lastIndexFrom pat s i pos best = best.
Proof.
  intros H. apply Nat.ltb_lt in H.
  destruct s; [rewrite lastIndexFrom_nil | rewrite lastIndexFrom_cons]; now rewrite H.
Qed.

Lemma lastIndexFrom_spec (pat s : string) :
  forall (i pos : nat) (best : Z),
    i <= pos ->
    let r := lastIndexFrom pat s i pos best in
    (r = best /\
     forall j, j <= String.length s -> i + j <= pos -> prefix pat (drop j s) = false)
    \/
    (exists j, r = Z.of_nat (i + j) /\ j <= String.length s /\ i + j <= pos /\
               prefix pat (drop j s) = true /\
               forall k, j < k -> k <= String.length s -> i + k <= pos ->
                         prefix pat (drop k s) = false).
Proof.
  induction s as [|c s IH]; intros i pos best Hi; cbv zeta.
  - rewrite lastIndexFrom_nil.
    destruct (pos <? i) eqn:E; [apply Nat.ltb_lt in E; lia |].
    destruct (prefix pat EmptyString) eqn:P.
    + right. exists 0. rewrite Nat.add_0_r. simpl String.length. simpl drop.
      split; [reflexivity |]. split; [lia |]. split; [lia |]. split; [exact P |].
      intros k Hk Hk'. lia.
    + left. split; [reflexivity |]. intros j Hj _. simpl in Hj.
      assert (j = 0) by lia. subst j. exact P.
  - rewrite lastIndexFrom_cons.
    destruct (pos <? i) eqn:E; [apply Nat.ltb_lt in E; lia |].
    apply Nat.ltb_ge in E.
    set (best' := if prefix pat (String c s) then Z.of_nat i else best).
    destruct (Nat.eq_dec i pos) as [->|Hne].
    + (* the position is reached: nothing further is looked at *)
      assert (R : lastIndexFrom pat s (S pos) pos best' = best').
      { apply lastIndexFrom_past. lia. }
      rewrite R. unfold best'. destruct (prefix pat (String c s)) eqn:P.
      * right. exists 0. rewrite Nat.add_0_r. simpl String.length.
        split; [reflexivity |]. split; [lia |]. split; [lia |]. split; [exact P |].
        intros k Hk _ Hk'. lia.
      * left. split; [reflexivity |]. intros j _ Hj. assert (j = 0) by lia. subst j. exact P.
    + assert (Hi' : S i <= pos) by lia.
      specialize (IH (S i) pos best' Hi'). cbv zeta in IH.
      destruct IH as [[R F] | [j [R [Hj [Hp [T F]]]]]].
      * rewrite R. unfold best'. destruct (prefix pat (String c s)) eqn:P.
        -- right. exists 0. rewrite Nat.add_0_r. simpl String.length.
           split; [reflexivity |]. split; [lia |]. split; [lia |]. split; [exact P |].
           intros k Hk Hk1 Hk2. destruct k as [|k]; [lia |]. rewrite drop_S.
           apply F; simpl in Hk1; lia.
        -- left. split; [reflexivity |]. intros j Hj Hj'.
           destruct j as [|j]; [exact P |]. rewrite drop_S. apply F; simpl in Hj; lia.
      * right. exists (S j). rewrite R. simpl String.length.
        split; [f_equal; lia |]. split; [lia |]. split; [lia |].
        split; [rewrite drop_S; exact T |].
        intros k Hk Hk1 Hk2. destruct k as [|k]; [lia |]. rewrite drop_S.
        apply F; lia.
Qed.

Lemma drop_beyond (n : nat) (s : string) : String.length s <= n -> drop n s = EmptyString.
Proof.
  revert s; induction n as [|n IH]; intros [|c s] H; simpl in *; try reflexivity; try lia.
  apply IH. lia.
Qed.

Lemma breakAt_inside (content : string) (b : Z) :
  (0 <= b)%Z -> breakAt content b = true -> (b < len content)%Z.
Proof.
  intros Hb H. unfold breakAt in H. unfold len.
  destruct (Nat.le_gt_cases (String.length content) (Z.to_nat b)) as [L|L]; [| lia].
  rewrite (drop_beyond _ _ L) in H. discriminate.
Qed.

(** The last paragraph break at or before the position, when there is
    one, is what [lastIndexOf] returns. *)
Lemma lastIndexOf_last_break (content : string) (pos b : Z) :
  (0 <= b <= pos)%Z ->
  breakAt content b = true ->
  (forall j, (b < j <= pos)%Z -> breakAt content j = false) ->
  lastIndexOf content (nl ++ nl) pos = b.
Proof.
  intros Hb Hat Hlast. unfold lastIndexOf.
  pose proof (breakAt_inside content b (proj1 Hb) Hat) as Hin. unfold len in Hin.
  destruct (lastIndexFrom_spec (nl ++ nl) content 0 (Z.to_nat pos) (-1) (Nat.le_0_l _))
    as [[_ F] | [j [R [Hj [Hp [T F]]]]]].
  - specialize (F (Z.to_nat b)). unfold breakAt in Hat. rewrite F in Hat; [discriminate | lia | lia].
  - rewrite R. simpl in Hp |- *.
    destruct (Nat.lt_trichotomy j (Z.to_nat b)) as [L | [E | G]].
    + specialize (F (Z.to_nat b) L). unfold breakAt in Hat.
      rewrite F in Hat; [discriminate | lia | simpl; lia].
    + lia.
    + specialize (Hlast (Z.of_nat j)). unfold breakAt in Hlast.
      rewrite Nat2Z.id in Hlast. rewrite Hlast in T; [discriminate | lia].
Qed.


(** ** Request shaping *)

(** C6: a query whose lowercase form contains "repo", "repository",
    "what" or "how" goes upstream as the user message with the fixed
    elaboration, written out below, appended; any other query goes
    upstream unchanged. *)
Theorem outbound_user_message (query apiKey : string) :
  let lower := toLowerCase query in
  let sent (user : string) :=
    [ {| role := "system"; text := systemMessage |}; {| role := "user"; text := user |} ] in
  (includes lower "repo" = true \/ includes lower "repository" = true
   \/ includes lower "what" = true \/ includes lower "how" = true ->
   messages (payload (request query apiKey))
   = sent (query
           ++ " - Please provide detailed information about the repository's purpose, architecture, and key components."))
  /\
  (includes lower "repo" = false /\ includes lower "repository" = false
   /\ includes lower "what" = false /\ includes lower "how" = false ->
   messages (payload (request query apiKey)) = sent query).
Proof.
  cbv zeta. unfold request, enhancedQuery. cbn [payload messages].
  split.
  - intros H.
    assert (T : includes (toLowerCase query) "repo" || includes (toLowerCase query) "repository"
                || includes (toLowerCase query) "what" || includes (toLowerCase query) "how" = true).
    { destruct H as [H | [H | [H | H]]]; rewrite H; auto with bool. }
    now rewrite T.
  - intros (H1 & H2 & H3 & H4). now rewrite H1, H2, H3, H4.
Qed.

Lemma outbound_user_message_witness :
  messages (payload (request "How does the chunking system work?" "key"))
  = [ {| role := "system"; text := systemMessage |};
      {| role := "user";
         text := "How does the chunking system work? - Please provide detailed information about the repository's purpose, architecture, and key components." |} ]
  /\ messages (payload (request "List the exported symbols" "key"))
     = [ {| role := "system"; text := systemMessage |};
         {| role := "user"; text := "List the exported symbols" |} ].
Proof.
  split.
  - apply (proj1 (outbound_user_message "How does the chunking system work?" "key")).
    right; right; right. reflexivity.
  - apply (proj2 (outbound_user_message "List the exported symbols" "key")).
    repeat split.
Defined.

(** ** The formatter *)





(** ** Responses with a non-success status *)

Lemma retryLoop_returns (JSON_parse : string -> option JSON)
      (network : nat -> Request -> Outcome) (query apiKey : string)
      (fuel : nat) (st : RetryState) (result : FetchResult) :
  inLoop st = true ->
  attempt JSON_parse (network (attempts st) (request query apiKey)) = inr result ->
  retryLoop JSON_parse network query apiKey (S fuel) st = Returned (Some result) (afterCall st).
Proof.
  unfold inLoop. intros L A. cbn [retryLoop]. rewrite L, A. reflexivity.
Qed.

Lemma readResponse_not_ok (JSON_parse : string -> option JSON) (r : Response) :
  ok r = false -> readResponse JSON_parse r = inr (statusResult (status r)).
Proof. intros H. unfold readResponse. now rewrite H. Qed.

(** ** Stream reconstruction *)

Lemma appendContent_textOf (acc : string) (v : Value) :
  appendContent acc v = acc ++ textOf v.
Proof.
  unfold appendContent, textOf.
  destruct v as [x|]; [destruct (toText x) |]; now rewrite ?append_nil_r.
Qed.

Lemma chosenField_null : chosenField JNull = None.
Proof. reflexivity. Qed.

(** One event adds its fragment to the text, whatever the text is. *)
Lemma processEvent_appends (JSON_parse : string -> option JSON) (acc event : string) :
  processEvent JSON_parse acc event = acc ++ eventFragment JSON_parse event.
Proof.
  unfold processEvent, eventFragment, eventKind.
  destruct (isEmpty (trim event)); [now rewrite append_nil_r |].
  destruct (includes event "data: [DONE]"); [now rewrite append_nil_r |].
  destruct (startsWith event "data: "); [| now rewrite append_nil_r].
  destruct (isEmpty (trim (drop 6 event))); [now rewrite append_nil_r |].
  destruct (JSON_parse (trim (drop 6 event))) as [jsonObj|]; [| now rewrite append_nil_r].
  assert (G : (if truthy (deltaContent jsonObj)
               then appendContent acc (deltaContent jsonObj)
               else if truthy (messageContent jsonObj)
                    then appendContent acc (messageContent jsonObj)
                    else if truthy (rawContent jsonObj)
                         then appendContent acc (rawContent jsonObj)
                         else acc)
              = acc ++ textOf (chosenField jsonObj)).
  { unfold chosenField.
    destruct (truthy (deltaContent jsonObj)); [apply appendContent_textOf |].
    destruct (truthy (messageContent jsonObj)); [apply appendContent_textOf |].
    destruct (truthy (rawContent jsonObj)); [apply appendContent_textOf |].
    now rewrite append_nil_r. }
  destruct jsonObj; exact G.
Qed.

Lemma fold_processEvent (JSON_parse : string -> option JSON) (events : list string) :
  forall acc,
    fold_left (processEvent JSON_parse) events acc
    = acc ++ concatAll (map (eventFragment JSON_parse) events).
Proof.
  induction events as [|e events IH]; intros acc; simpl.
  - now rewrite append_nil_r.
  - rewrite IH, processEvent_appends. apply append_assoc.
Qed.



(** ** The Sources section *)

Lemma includes_cons (c : ascii) (s pat : string) :
  includes (String c s) pat = if prefix pat (String c s) then true else includes s pat.
Proof. reflexivity. Qed.

Lemma prefix_nil (s : string) : prefix EmptyString s = true.
Proof. now destruct s. Qed.

Lemma no_backtick_cons (c : ascii) (s : string) :
  includes (String c s) "`" = false -> c <> backtick /\ includes s "`" = false.
Proof.
  rewrite includes_cons. destruct (prefix "`" (String c s)) eqn:P; [discriminate |].
  intros H. split; [| exact H]. intros ->.
  cbn in P. rewrite prefix_nil in P. discriminate.
Qed.

Lemma quoted_identifier (id rest : string) :
  includes id "`" = false -> quoted (id ++ String backtick rest) = Some id.
Proof.
  induction id as [|c id IH]; intros H.
  - reflexivity.
  - apply no_backtick_cons in H. destruct H as [N H].
    change (String c id ++ String backtick rest) with (String c (id ++ String backtick rest)).
    cbn [quoted].
    destruct (Ascii.eqb_spec c backtick) as [E|_]; [now elim N |].
    rewrite IH; [reflexivity | exact H].
Qed.

Lemma entry_bullet (id rest : string) :
  isIdentifier id = true ->
  entry ("- `" ++ id ++ String backtick rest) = Some id.
Proof.
  unfold isIdentifier. intros H. apply andb_true_iff in H. destruct H as [Hne Hbt].
  apply negb_true_iff in Hbt.
  unfold entry.
  change ("- `" ++ id ++ String backtick rest)
    with (String "-" (String " " (String "`" (id ++ String backtick rest)))).
  replace (prefix "- `" (String "-" (String " " (String "`" (id ++ String backtick rest))))) with true.
  2:{ simpl. now destruct (id ++ String backtick rest). }
  change (drop 3 (String "-" (String " " (String "`" (id ++ String backtick rest)))))
    with (id ++ String backtick rest).
  rewrite (quoted_identifier id rest Hbt).
  destruct id; [discriminate Hne | reflexivity].
Qed.

Lemma entriesLength_skip (u rest : string) :
  entriesLength (u ++ rest) (String.length u) = String.length u + entriesLength rest 0.
Proof. induction u as [|c u IH]; simpl; [reflexivity | now rewrite IH]. Qed.

Lemma execAll_skip (u rest : string) :
  execAll (u ++ rest) (String.length u) = execAll rest 0.
Proof. induction u as [|c u IH]; simpl; [reflexivity | exact IH]. Qed.

Lemma prefix_cons (a c : ascii) (p s : string) :
  prefix (String a p) (String c s) = if ascii_dec a c then prefix p s else false.
Proof. reflexivity. Qed.

Lemma entry_needs_dash (c : ascii) (s : string) :
  c <> "-"%char -> entry (String c s) = None.
Proof.
  intros N. unfold entry. change "- `" with (String "-" " `"). rewrite prefix_cons.
  destruct (ascii_dec "-" c) as [E|_]; [now elim N | reflexivity].
Qed.

Lemma bullet_length (id : string) : String.length (bullet id) = String.length id + 5.
Proof. unfold bullet. rewrite !length_append. simpl. lia. Qed.

Lemma entriesLength_bullet (id rest : string) :
  isIdentifier id = true ->
  entriesLength (bullet id ++ rest) 0 = String.length (bullet id) + entriesLength rest 0.
Proof.
  intros H. rewrite bullet_length.
  set (u := " `" ++ id ++ String backtick EmptyString).
  assert (E : bullet id ++ rest = String "-" (u ++ nl ++ rest)).
  { unfold bullet, u. simpl. rewrite !append_assoc. reflexivity. }
  rewrite E. cbn [entriesLength].
  assert (En : entry (String "-" (u ++ nl ++ rest)) = Some id).
  { rewrite <- (entry_bullet id (nl ++ rest) H). unfold u. simpl. now rewrite !append_assoc. }
  rewrite En.
  assert (D : drop (String.length id + 4) (String "-" (u ++ nl ++ rest)) = nl ++ rest).
  { replace (String.length id + 4) with (String.length (String "-" u)).
    - change (String "-" (u ++ nl ++ rest)) with (String "-" u ++ (nl ++ rest)).
      apply drop_append.
    - unfold u. simpl. rewrite length_append. simpl. lia. }
  rewrite D, prefix_append.
  replace (S (String.length id + 4) - 1) with (String.length (u ++ nl)).
  2:{ unfold u. rewrite !length_append. simpl. lia. }
  rewrite <- append_assoc, entriesLength_skip.
  unfold u. rewrite !length_append. simpl. lia.
Qed.

Lemma entriesLength_no_entry (t : string) : entry t = None -> entriesLength t 0 = 0.
Proof. intros H. destruct t; [reflexivity |]. cbn [entriesLength]. now rewrite H. Qed.

Lemma entriesLength_bullets (ids : list string) (t : string) :
  forallb isIdentifier ids = true ->
  entry t = None ->
  entriesLength (concatAll (map bullet ids) ++ t) 0
  = String.length (concatAll (map bullet ids)).
Proof.
  intros V T. induction ids as [|id ids IH].
  - simpl. now apply entriesLength_no_entry.
  - cbn [forallb] in V. apply andb_true_iff in V. destruct V as [V1 V2].
    cbn [map concatAll fold_right]. fold (concatAll (map bullet ids)).
    rewrite append_assoc, entriesLength_bullet, IH, length_append by assumption.
    reflexivity.
Qed.

Lemma execAll_bullet (id rest : string) :
  isIdentifier id = true ->
  execAll (bullet id ++ rest) 0 = id :: execAll rest 0.
Proof.
  intros H.
  set (u := " `" ++ id ++ String backtick EmptyString).
  assert (E : bullet id ++ rest = String "-" (u ++ nl ++ rest)).
  { unfold bullet, u. simpl. rewrite !append_assoc. reflexivity. }
  rewrite E. cbn [execAll].
  assert (En : entry (String "-" (u ++ nl ++ rest)) = Some id).
  { rewrite <- (entry_bullet id (nl ++ rest) H). unfold u. simpl. now rewrite !append_assoc. }
  rewrite En. f_equal.
  replace (String.length id + 3) with (String.length u).
  2:{ unfold u. rewrite !length_append. simpl. lia. }
  rewrite execAll_skip.
  change (nl ++ rest) with (String (ascii_of_nat 10) rest). cbn [execAll].
  rewrite entry_needs_dash; [reflexivity | discriminate].
Qed.

Lemma execAll_bullets (ids : list string) :
  forallb isIdentifier ids = true ->
  execAll (concatAll (map bullet ids)) 0 = ids.
Proof.
  intros V. induction ids as [|id ids IH]; [reflexivity |].
  cbn [forallb] in V. apply andb_true_iff in V. destruct V as [V1 V2].
  cbn [map concatAll fold_right]. fold (concatAll (map bullet ids)).
  rewrite execAll_bullet by assumption. now rewrite IH.
Qed.

Lemma sourceMatch_unfold (s : string) :
  sourceMatch s
  = match sectionAt s with
    | Some group => Some group
    | None => match s with
              | EmptyString => None
              | String _ s' => sourceMatch s'
              end
    end.
Proof. now destruct s. Qed.

(** The search passes over a text in which no section starts. *)
Lemma sourceMatch_skip (before rest : string) :
  (forall i, i < String.length before -> sectionAt (drop i (before ++ rest)) = None) ->
  sourceMatch (before ++ rest) = sourceMatch rest.
Proof.
  induction before as [|c before IH]; intros H; [reflexivity |].
  rewrite sourceMatch_unfold.
  pose proof (H 0 ltac:(simpl; lia)) as H0. cbn [drop] in H0. rewrite H0.
  change (String c before ++ rest) with (String c (before ++ rest)).
  apply IH. intros i Hi. apply (H (S i)). simpl. lia.
Qed.

Lemma sectionAt_section (ids : list string) (t : string) :
  ids <> [] ->
  forallb isIdentifier ids = true ->
  entry t = None ->
  sectionAt (trailingSection ids ++ t) = Some (concatAll (map bullet ids)).
Proof.
  intros N V T. unfold sectionAt, trailingSection.
  rewrite append_assoc, prefix_append, drop_append.
  rewrite entriesLength_bullets by assumption.
  destruct (String.length (concatAll (map bullet ids))) eqn:L.
  - destruct ids as [|id ids]; [now elim N |].
    cbn [map concatAll fold_right] in L. rewrite length_append, bullet_length in L. lia.
  - rewrite <- L. now rewrite take_append.
Qed.

(** The identifiers of a section of entries are extracted in order, when
    no section starts before it. *)
Lemma extractSources_section (before : string) (ids : list string) (t : string) :
  ids <> [] ->
  forallb isIdentifier ids = true ->
  entry t = None ->
  (forall i, i < String.length before ->
             sectionAt (drop i (before ++ trailingSection ids ++ t)) = None) ->
  extractSources (before ++ trailingSection ids ++ t) = ids.
Proof.
  intros N V T H. unfold extractSources.
  rewrite sourceMatch_skip by exact H.
  rewrite sourceMatch_unfold, sectionAt_section by assumption.
  now apply execAll_bullets.
Qed.

(** The same for entries whose line feeds are optional. *)
Lemma entryText_parts (e : string * bool) (rest : string) :
  entryText e ++ rest
  = String "-" ((" `" ++ fst e ++ String backtick EmptyString)
                ++ (if snd e then nl else EmptyString) ++ rest).
Proof. unfold entryText. simpl. now rewrite !append_assoc. Qed.

Lemma entry_entryText (e : string * bool) (rest : string) :
  isIdentifier (fst e) = true -> entry (entryText e ++ rest) = Some (fst e).
Proof.
  intros H.
  rewrite <- (entry_bullet (fst e) ((if snd e then nl else EmptyString) ++ rest) H).
  unfold entryText. simpl. now rewrite !append_assoc.
Qed.

Lemma entries_start (entries : list (string * bool)) :
  prefix nl (concatAll (map entryText entries)) = false.
Proof. destruct entries as [|e entries]; reflexivity. Qed.

Lemma execAll_entryText (e : string * bool) (rest : string) :
  isIdentifier (fst e) = true ->
  execAll (entryText e ++ rest) 0 = fst e :: execAll rest 0.
Proof.
  intros H. pose proof (entry_entryText e rest H) as En.
  rewrite entryText_parts in *. cbn [execAll]. rewrite En. f_equal.
  set (u := " `" ++ fst e ++ String backtick EmptyString).
  replace (String.length (fst e) + 3) with (String.length u).
  2:{ unfold u. rewrite !length_append. simpl. lia. }
  rewrite execAll_skip. destruct (snd e); [| reflexivity].
  change (nl ++ rest) with (String (ascii_of_nat 10) rest). cbn [execAll].
  rewrite entry_needs_dash; [reflexivity | discriminate].
Qed.

Lemma execAll_entries (entries : list (string * bool)) :
  wellQuoted entries = true ->
  execAll (concatAll (map entryText entries)) 0 = identifiers entries.
Proof.
  unfold wellQuoted, identifiers. intros V.
  induction entries as [|e entries IH]; [reflexivity |].
  cbn [forallb] in V. apply andb_true_iff in V. destruct V as [V1 V2].
  cbn [map concatAll fold_right]. fold (concatAll (map entryText entries)).
  rewrite execAll_entryText by assumption. now rewrite IH.
Qed.

Lemma entriesLength_entryText (e : string * bool) (rest : string) :
  isIdentifier (fst e) = true ->
  prefix nl rest = false ->
  entriesLength (entryText e ++ rest) 0
  = String.length (entryText e) + entriesLength rest 0.
Proof.
  intros H R. pose proof (entry_entryText e rest H) as En.
  set (u := " `" ++ fst e ++ String backtick EmptyString).
  assert (Lu : String.length u = String.length (fst e) + 3).
  { unfold u. rewrite !length_append. cbn [String.length]. lia. }
  assert (Le : String.length (entryText e)
               = String.length (fst e) + 4 + (if snd e then 1 else 0)).
  { unfold entryText. rewrite !length_append. destruct (snd e); cbn [String.length nl]; lia. }
  rewrite entryText_parts in *. fold u in En |- *. cbn [entriesLength]. rewrite En.
  assert (D : drop (String.length (fst e) + 4)
                   (String "-" (u ++ (if snd e then nl else EmptyString) ++ rest))
              = (if snd e then nl else EmptyString) ++ rest).
  { replace (String.length (fst e) + 4) with (String.length (String "-" u))
      by (cbn [String.length]; lia).
    change (String "-" (u ++ (if snd e then nl else EmptyString) ++ rest))
      with (String "-" u ++ ((if snd e then nl else EmptyString) ++ rest)).
    apply drop_append. }
  rewrite D, Le. destruct (snd e).
  - rewrite prefix_append.
    replace (S (String.length (fst e) + 4) - 1) with (String.length (u ++ nl))
      by (rewrite length_append; cbn [String.length nl]; lia).
    rewrite <- append_assoc, entriesLength_skip, length_append.
    cbn [String.length nl]. lia.
  - cbn [append]. rewrite R.
    replace (String.length (fst e) + 4 - 1) with (String.length u) by lia.
    rewrite entriesLength_skip. lia.
Qed.

Lemma entriesLength_entries (entries : list (string * bool)) :
  wellQuoted entries = true ->
  entriesLength (concatAll (map entryText entries)) 0
  = String.length (concatAll (map entryText entries)).
Proof.
  unfold wellQuoted. intros V. induction entries as [|e entries IH]; [reflexivity |].
  cbn [forallb] in V. apply andb_true_iff in V. destruct V as [V1 V2].
  cbn [map concatAll fold_right]. fold (concatAll (map entryText entries)).
  rewrite entriesLength_entryText, IH, length_append;
    [reflexivity | exact V2 | exact V1 | apply entries_start].
Qed.

Lemma sectionAt_sectionOf (entries : list (string * bool)) :
  entries <> [] ->
  wellQuoted entries = true ->
  sectionAt (sectionOf entries) = Some (concatAll (map entryText entries)).
Proof.
  intros N V. unfold sectionAt, sectionOf.
  rewrite prefix_append, drop_append, entriesLength_entries by assumption.
  destruct (String.length (concatAll (map entryText entries))) eqn:L.
  - destruct entries as [|e entries]; [now elim N |].
    cbn [map concatAll fold_right] in L. unfold entryText in L.
    rewrite !length_append in L. simpl in L. lia.
  - rewrite <- L. now rewrite take_all.
Qed.

(** The identifiers of a section that ends the text are extracted in
    order, when no section starts before it. *)
Lemma extractSources_sectionOf (before : string) (entries : list (string * bool)) :
  entries <> [] ->
  wellQuoted entries = true ->
  (forall i, i < String.length before ->
             sectionAt (drop i (before ++ sectionOf entries)) = None) ->
  extractSources (before ++ sectionOf entries) = identifiers entries.
Proof.
  intros N V H. unfold extractSources.
  rewrite sourceMatch_skip by exact H.
  rewrite sourceMatch_unfold, sectionAt_sectionOf by assumption.
  now apply execAll_entries.
Qed.

Lemma no_section_before (content : string) (n : nat) :
  forallb (fun i => match sectionAt (drop i content) with None => true | Some _ => false end)
          (seq 0 n) = true ->
  forall i, i < n -> sectionAt (drop i content) = None.
Proof.
  intros H i Hi. rewrite forallb_forall in H.
  specialize (H i). destruct (sectionAt (drop i content)); [| reflexivity].
  assert (false = true) by (apply H, in_seq; lia). discriminate.
Qed.

(** C5, as amended: when the text gathered from a stream ends in a Sources
    section (the header line and entries, each followed by a line feed or
    not, the last one too) and no Sources section starts before it, the
    sources returned are the identifiers of the entries in their order;
    the content returned is the whole gathered text, the section
    included. *)
Theorem sources_of_trailing_section
        (JSON_parse : string -> option JSON) (textResponse before : string)
        (entries : list (string * bool)) :
  entries <> [] ->
  wellQuoted entries = true ->
  content (readStream JSON_parse textResponse) = before ++ sectionOf entries ->
  (forall i, i < String.length before ->
             sectionAt (drop i (before ++ sectionOf entries)) = None) ->
  sources (readStream JSON_parse textResponse) = Some (identifiers entries)
  /\ content (readStream JSON_parse textResponse)
     = concatAll (map (eventFragment JSON_parse) (split textResponse (nl ++ nl))).
Proof.
  intros N V C H. split.
  - change (sources (readStream JSON_parse textResponse))
      with (Some (extractSources (content (readStream JSON_parse textResponse)))).
    rewrite C. f_equal. now apply extractSources_sectionOf.
  - unfold readStream. cbn [content]. now rewrite fold_processEvent.
Qed.

Lemma sources_of_trailing_section_witness :
  (content (readStream JsonText.parse (streamOf citedAnswer)) = citedAnswer
   /\ sources (readStream JsonText.parse (streamOf citedAnswer)) = Some ["a"; "b"])
  /\ (content (readStream JsonText.parse (streamOf openAnswer))
      = citedIntro ++ header ++ "- `a`" ++ nl ++ "- `b`"
      /\ sources (readStream JsonText.parse (streamOf openAnswer)) = Some ["a"; "b"]).
Proof.
  split; (split; [reflexivity |]).
  - apply (sources_of_trailing_section JsonText.parse (streamOf citedAnswer) citedIntro
             [("a", true); ("b", true)]).
    + discriminate.
    + reflexivity.
    + reflexivity.
    + apply no_section_before. reflexivity.
  - apply (sources_of_trailing_section JsonText.parse (streamOf openAnswer) citedIntro
             [("a", true); ("b", false)]).
    + discriminate.
    + reflexivity.
    + reflexivity.
    + apply no_section_before. reflexivity.
Defined.

(** C5, as stated, fails: a text that ends in a Sources section with the
    entries a and b, and holds a Sources section before it, gives the
    identifier of the earlier section. *)
Lemma earlier_section_hides_trailing_one :
  content (readStream JsonText.parse (streamOf twoSections))
  = twoSectionsIntro ++ trailingSection ["a"; "b"]
  /\ forallb isIdentifier ["a"; "b"] = true
  /\ sources (readStream JsonText.parse (streamOf twoSections)) = Some ["x"].
Proof. repeat split. Qed.

(** ** The JSON path *)

Lemma readResponse_json (JSON_parse : string -> option JSON) (r : Response) :
  ok r = true -> isEventStream r = false ->
  readResponse JSON_parse r = readJson JSON_parse r.
Proof.
  unfold readResponse, isEventStream. intros Hok H. rewrite Hok. cbn [negb].
  destruct (contentType r) as [ct|]; [| reflexivity]. now rewrite H.
Qed.

Lemma optMember_object (v : Value) (name : string) (x : JSON) :
  optMember v name = Some x -> exists m, v = Some (JObj m).
Proof.
  destruct v as [[| | | | |m]|]; simpl; intros H; try discriminate. now exists m.
Qed.

Lemma member_object (data : JSON) (name : string) (x : JSON) :
  member data name = Some x -> exists m, data = JObj m.
Proof. destruct data; simpl; intros H; try discriminate. now eexists. Qed.

Lemma optFirst_truthy (v : Value) (x : JSON) : optFirst v = Some x -> truthy v = true.
Proof.
  destruct v as [[| | |s|l|m]|]; simpl; intros H; try discriminate; try reflexivity.
  now destruct s.
Qed.

(** A document whose [choices[0].message.content] is a string passes the
    four tests of the shape. *)
Lemma readJson_completion (JSON_parse : string -> option JSON) (r : Response)
      (data : JSON) (t : string) :
  JSON_parse (bodyText r) = Some data ->
  messageContent data = Some (JStr t) ->
  readJson JSON_parse r
  = inr {| content := t; sources := Some (extractSources t); statusCode := None |}.
Proof.
  intros P H. unfold readJson. rewrite P. cbv zeta. unfold messageContent in H.
  destruct (optMember_object _ _ _ H) as [mm Em].
  destruct (optMember_object _ _ _ Em) as [mf Ef].
  assert (T4 : truthy (optMember (optFirst (member data "choices")) "message") = true)
    by now rewrite Em.
  assert (T3 : truthy (optFirst (member data "choices")) = true) by now rewrite Ef.
  assert (T2 : truthy (member data "choices") = true) by exact (optFirst_truthy _ _ Ef).
  assert (T1 : truthy (Some data) = true).
  { destruct (member data "choices") as [c|] eqn:Ec; [| discriminate Ef].
    destruct (member_object _ _ _ Ec) as [md ->]. reflexivity. }
  rewrite T1, T2, T3, T4. cbn [negb orb]. now rewrite H.
Qed.

(** C9, as amended: on the JSON path, a document whose
    [choices[0].message.content] is a string gives that string as the
    content, unchanged, with the sources that the block of the stream
    path extracts from it: the identifiers of a Sources section that ends
    the string, in their order, when no section starts before it. *)
Theorem json_path_extracts_sources
        (JSON_parse : string -> option JSON) (r : Response) (data : JSON) (t : string) :
  ok r = true ->
  isEventStream r = false ->
  JSON_parse (bodyText r) = Some data ->
  messageContent data = Some (JStr t) ->
  readResponse JSON_parse r
  = inr {| content := t; sources := Some (extractSources t); statusCode := None |}
  /\
  (forall textResponse,
      sources (readStream JSON_parse textResponse)
      = Some (extractSources (content (readStream JSON_parse textResponse))))
  /\
  (forall before entries,
      entries <> [] ->
      wellQuoted entries = true ->
      t = before ++ sectionOf entries ->
      (forall i, i < String.length before ->
                 sectionAt (drop i (before ++ sectionOf entries)) = None) ->
      extractSources t = identifiers entries).
Proof.
  intros Hok Hct P H. split; [| split].
  - rewrite readResponse_json by assumption. now apply readJson_completion with (data := data).
  - reflexivity.
  - intros before entries N V E F. rewrite E. now apply extractSources_sectionOf.
Qed.

Lemma json_path_witness :
  readResponse JsonText.parse (completion citedAnswer)
  = inr {| content := citedAnswer; sources := Some ["a"; "b"]; statusCode := None |}
  /\ readResponse JsonText.parse (completion openAnswer)
     = inr {| content := citedIntro ++ header ++ "- `a`" ++ nl ++ "- `b`";
              sources := Some ["a"; "b"]; statusCode := None |}.
Proof.
  split.
  - destruct (json_path_extracts_sources JsonText.parse (completion citedAnswer)
                (JObj [("choices", JArr [JObj [("message", JObj [("content", JStr citedAnswer)])]])])
                citedAnswer eq_refl eq_refl eq_refl eq_refl) as (R & _ & S).
    rewrite R, (S citedIntro [("a", true); ("b", true)]).
    + reflexivity.
    + discriminate.
    + reflexivity.
    + reflexivity.
    + apply no_section_before. reflexivity.
  - destruct (json_path_extracts_sources JsonText.parse (completion openAnswer)
                (JObj [("choices", JArr [JObj [("message", JObj [("content", JStr openAnswer)])]])])
                openAnswer eq_refl eq_refl eq_refl eq_refl) as (R & _ & S).
    rewrite R, (S citedIntro [("a", true); ("b", false)]).
    + reflexivity.
    + discriminate.
    + reflexivity.
    + reflexivity.
    + apply no_section_before. reflexivity.
Defined.

(** C9, as stated, fails: a document that passes the four tests of the
    shape and whose message has [null] for a content is not returned with
    its content and sources.  The call of [match] on the content throws,
    the fallback finds the body read already, and the engine sends the
    request again: with this answer to every call it never returns. *)
Lemma shaped_document_without_text_is_not_returned :
  ok nullContent = true
  /\ JsonText.parse (bodyText nullContent)
     = Some (JObj [("choices", JArr [JObj [("message", JObj [("content", JNull)])]])])
  /\ shapeMismatch (JObj [("choices", JArr [JObj [("message", JObj [("content", JNull)])]])])
     = false
  /\ readResponse JsonText.parse nullContent = inl bodyUnusable
  /\ fetchContextFromNia JsonText.parse (always nullContent) "what is this" "key" 7
     = Pending {| retryCount := 7; timeoutRetryCount := 0; lastError := Some bodyUnusable;
                  attempts := 7; waits := [2000; 4000] |}.
Proof. repeat split. Qed.

(** ** The retry loop *)

Section Loop.

Variable JSON_parse : string -> option JSON.
Variable network : nat -> Request -> Outcome.
Variables query apiKey : string.

Let run := retryLoop JSON_parse network query apiKey.
Let tried (n : nat) := attempt JSON_parse (network n (request query apiKey)).

Lemma timeoutState_next (n : nat) :
  (if S n <? maxTimeoutRetries
   then (waits (timeoutState n) ++ [1000 * S n])%list
   else waits (timeoutState n))
  = waits (timeoutState (S n)).
Proof.
  unfold timeoutState, maxTimeoutRetries. cbn [waits].
  destruct n as [|[|[|[|n]]]]; try reflexivity.
  rewrite !(Nat.min_r _ 4) by lia. reflexivity.
Qed.

Lemma retryLoop_timeouts :
  (forall i, exists e, tried i = inl e /\ isTimeout e = true) ->
  forall fuel n, run fuel (timeoutState n) = Pending (timeoutState (n + fuel)).
Proof.
  intros H. induction fuel as [|fuel IH]; intros n.
  - now rewrite Nat.add_0_r.
  - rewrite Nat.add_succ_r, <- Nat.add_succ_l, <- IH.
    destruct (H n) as [e [A T]]. unfold tried in A.
    unfold run. cbn [retryLoop].
    cbn [timeoutState retryCount timeoutRetryCount attempts lastError waits].
    rewrite A, T. change (0 <? maxRetries) with true. cbn [orb].
    change (maxRetries <=? 0) with false. cbn [andb].
    pose proof (timeoutState_next n) as W. cbn [timeoutState waits] in W.
    destruct (S n <? maxTimeoutRetries); unfold timeoutState; rewrite <- W; reflexivity.
Qed.

Lemma genericState_next (e : Thrown) (n : nat) :
  (if S n <? maxRetries
   then (waits (genericState e n) ++ [backoffMs (S n)])%list
   else waits (genericState e n))
  = waits (genericState e (S n)).
Proof.
  unfold genericState, maxRetries. cbn [waits].
  destruct n as [|[|n]]; try reflexivity.
  rewrite !(Nat.min_r _ 2) by lia. reflexivity.
Qed.

Lemma retryLoop_generic (e : Thrown) :
  isTimeout e = false ->
  (forall i, tried i = inl e) ->
  forall fuel n, run fuel (genericState e n) = Pending (genericState e (n + fuel)).
Proof.
  intros T H. induction fuel as [|fuel IH]; intros n.
  - now rewrite Nat.add_0_r.
  - rewrite Nat.add_succ_r, <- Nat.add_succ_l, <- IH.
    pose proof (H n) as A. unfold tried in A.
    unfold run. cbn [retryLoop].
    cbn [genericState retryCount timeoutRetryCount attempts lastError waits].
    rewrite A, T. change (0 <? maxTimeoutRetries) with true. rewrite orb_true_r.
    change (maxTimeoutRetries <=? 0) with false. rewrite andb_false_r.
    pose proof (genericState_next e n) as W. cbn [genericState waits] in W.
    unfold genericState. rewrite <- W. reflexivity.
Qed.

End Loop.

(** ** Where results come from *)

Lemma plainTextFallback_origin (r : Response) (result : FetchResult) :
  plainTextFallback r = inr result -> Origin result.
Proof.
  unfold plainTextFallback. destruct (textAfterJson r); intros H; [discriminate |].
  injection H as <-. constructor.
Qed.

Lemma readResponse_origin (JSON_parse : string -> option JSON) (r : Response)
      (result : FetchResult) :
  readResponse JSON_parse r = inr result -> Origin result.
Proof.
  unfold readResponse.
  destruct (negb (ok r)); [intros H; injection H as <-; constructor |].
  assert (J : readJson JSON_parse r = inr result -> Origin result).
  { unfold readJson. destruct (JSON_parse (bodyText r)) as [data|];
      [| apply plainTextFallback_origin]. cbv zeta.
    destruct (_ || _); [intros H; injection H as <-; constructor |].
    destruct (optMember _ "content") as [[| | |t| |]|];
      try apply plainTextFallback_origin.
    intros H; injection H as <-; constructor. }
  destruct (contentType r) as [ct|]; [| exact J].
  destruct (_ && _); [| exact J].
  intros H; injection H as <-. unfold readStream. constructor.
Qed.

Lemma allRetriesFailed_timed_out (st : RetryState) :
  (maxTimeoutRetries <=? timeoutRetryCount st) = true ->
  allRetriesFailed st = timedOutResult (timeoutRetryCount st).
Proof. intros H. unfold allRetriesFailed. now rewrite H. Qed.

Lemma retryLoop_origin (JSON_parse : string -> option JSON)
      (network : nat -> Request -> Outcome) (query apiKey : string) :
  forall fuel st result st',
    retryLoop JSON_parse network query apiKey fuel st = Returned result st' ->
    exists r, result = Some r /\ Origin r.
Proof.
  induction fuel as [|fuel IH]; intros st result st' H; [discriminate |].
  cbn [retryLoop] in H.
  destruct (_ || _) eqn:L.
  - destruct (attempt _ _) as [e|r] eqn:A.
    + destruct (isTimeout e).
      * destruct (S (timeoutRetryCount st) <? maxTimeoutRetries); [now apply IH in H |].
        destruct (_ && _) eqn:B; [| now apply IH in H].
        injection H as <- _. apply andb_true_iff in B. destruct B as [_ B].
        eexists; split; [reflexivity |].
        rewrite (allRetriesFailed_timed_out _ B). constructor.
      * destruct (_ && _) eqn:B; [| now apply IH in H].
        injection H as <- _. apply andb_true_iff in B. destruct B as [_ B].
        eexists; split; [reflexivity |].
        rewrite (allRetriesFailed_timed_out _ B). constructor.
    + injection H as <- _. eexists; split; [reflexivity |].
      destruct (network _ _); [discriminate A |].
      now apply readResponse_origin in A.
  - injection H as <- _. apply orb_false_iff in L. destruct L as [_ L].
    eexists; split; [reflexivity |].
    rewrite allRetriesFailed_timed_out; [constructor |].
    apply Nat.ltb_ge in L. now apply Nat.leb_le.
Qed.

(** ** Runs of the engine on the example networks *)

(** With both counters at their bounds the loop is left, always for the
    timed-out result: three refused calls and five aborted ones make eight
    calls, six waits and the status 408. *)
Example both_counters_exhausted :
  fetchContextFromNia JsonText.parse refusedThenAborted "how does it work" "key" 8
  = Returned (Some (timedOutResult 5))
             {| retryCount := 3; timeoutRetryCount := 5; lastError := Some refused;
                attempts := 8; waits := [2000; 4000; 1000; 2000; 3000; 4000] |}
  /\ content (timedOutResult 5)
     = "Request timed out after 5 attempts. The Nia API might be experiencing high load or the query is too complex.".
Proof. split; reflexivity. Qed.

Example stream_answer_formatted :
  formatResponse "what is chunking"
    (Some (readStream JsonText.parse (streamOf citedAnswer)))
  = "Context for " ++ dq ++ "what is chunking" ++ dq ++ ":" ++ nl ++ nl
    ++ citedAnswer ++ nl ++ nl ++ "Sources:" ++ nl ++ "- a" ++ nl ++ "- b".
Proof. reflexivity. Qed.

Example status_answers :
  formatResponse "q" (Some (statusResult 402)) = quotaMessage
  /\ formatResponse "q" (Some (statusResult 503))
     = "Failed to retrieve context from Nia API: HTTP error 503"
  /\ formatResponse "q" (Some (timedOutResult 5))
     = "Failed to retrieve context from Nia API: HTTP error 408".
Proof. repeat split. Qed.

(** The two error classes. *)
Lemma isTimeout_classes (name message : string) :
  isTimeout (ErrorObject name message) = true
  <-> name = "TimeoutError" \/ name = "AbortError"
      \/ includes message "timeout" = true \/ includes message "abort" = true.
Proof.
  unfold isTimeout. rewrite !orb_true_iff, !String.eqb_eq. tauto.
Qed.

(** The result built from [lastError] is never returned: the loop is left
    only with the timeout counter at its bound. *)
Lemma communication_result_unreachable
      (JSON_parse : string -> option JSON) (network : nat -> Request -> Outcome)
      (query apiKey : string) (fuel n : nat) (e : option Thrown)
      (result : option FetchResult) (st : RetryState) :
  fetchContextFromNia JSON_parse network query apiKey fuel = Returned result st ->
  result <> Some (communicationResult n e).
Proof.
  intros H. apply retryLoop_origin in H. destruct H as [r [-> O]].
  intros E. injection E as ->. inversion O.
Qed.

(** ** Timeouts on every call *)

(** C1, where the code departs from the claim: when every call of [fetch]
    fails with a timeout-class error the loop is still running after any
    number of iterations.  [timeoutRetryCount] counts them all and passes
    5, [retryCount] stays 0, the backoffs 1000, 2000, 3000 and 4000 are
    waited after the first four failures and none after, and no result,
    so no status 408, is returned. *)
Theorem timeouts_on_every_call_never_return
        (JSON_parse : string -> option JSON) (network : nat -> Request -> Outcome)
        (query apiKey : string) :
  (forall i, exists e, network i (request query apiKey) = Rejects e /\ isTimeout e = true) ->
  forall fuel,
    fetchContextFromNia JSON_parse network query apiKey fuel
    = Pending {| retryCount := 0; timeoutRetryCount := fuel; lastError := None;
                 attempts := fuel;
                 waits := map (fun k => 1000 * k) (seq 1 (Nat.min fuel 4)) |}.
Proof.
  intros H fuel. unfold fetchContextFromNia.
  change startState with (timeoutState 0).
  rewrite retryLoop_timeouts; [reflexivity |].
  intros i. destruct (H i) as [e [N T]]. exists e. now rewrite N.
Qed.

Lemma timeouts_on_every_call_witness :
  isTimeout aborted = true
  /\ fetchContextFromNia JsonText.parse (alwaysFails aborted) "how does it work" "key" 5
     = Pending {| retryCount := 0; timeoutRetryCount := 5; lastError := None; attempts := 5;
                  waits := [1000; 2000; 3000; 4000] |}
  /\ fetchContextFromNia JsonText.parse (alwaysFails aborted) "how does it work" "key" 9
     = Pending {| retryCount := 0; timeoutRetryCount := 9; lastError := None; attempts := 9;
                  waits := [1000; 2000; 3000; 4000] |}.
Proof.
  assert (H : forall i, exists e,
               alwaysFails aborted i (request "how does it work" "key") = Rejects e
               /\ isTimeout e = true)
    by (intros i; exists aborted; split; reflexivity).
  split; [reflexivity | split].
  - exact (timeouts_on_every_call_never_return JsonText.parse _ _ _ H 5).
  - exact (timeouts_on_every_call_never_return JsonText.parse _ _ _ H 9).
Defined.

(** ** Status codes and contents *)

(** C2, as stated, fails: for a success response whose JSON document is no
    chat completion the engine returns a status code together with a
    content that is not empty. *)
Lemma status_code_with_failure_message :
  fetchContextFromNia JsonText.parse (always emptyObject) "list the modules" "key" 1
  = Returned (Some {| content := invalidFormatMessage; sources := None;
                      statusCode := Some 500%Z |})
             {| retryCount := 0; timeoutRetryCount := 0; lastError := None;
                attempts := 1; waits := [] |}
  /\ isEmpty invalidFormatMessage = false.
Proof. split; reflexivity. Qed.

(** C2, as amended: every result the engine returns is an object of one of
    four kinds.  Without a status code it carries the content read from a
    body and a sources list.  With a status code it has no sources list,
    and its content is empty (the status of a non-success response), the
    invalid-format message (status 500) or the timed-out message (status
    408): a status code never comes with an answer. *)
Theorem returned_results_by_origin
        (JSON_parse : string -> option JSON) (network : nat -> Request -> Outcome)
        (query apiKey : string) (fuel : nat) (result : option FetchResult)
        (st : RetryState) :
  fetchContextFromNia JSON_parse network query apiKey fuel = Returned result st ->
  exists r,
    result = Some r
    /\ Origin r
    /\ (statusCode r = None -> exists l, sources r = Some l)
    /\ (forall code,
          statusCode r = Some code ->
          sources r = None
          /\ (content r = EmptyString
              \/ (content r = invalidFormatMessage /\ code = 500%Z)
              \/ (exists n, r = timedOutResult n /\ code = 408%Z))).
Proof.
  intros H. apply retryLoop_origin in H. destruct H as [r [E O]].
  exists r. split; [exact E | split; [exact O |]].
  destruct O as [code' | | n | c l]; cbn [statusCode sources content]; split.
  - discriminate.
  - intros code _. split; [reflexivity | now left].
  - discriminate.
  - intros code C. injection C as <-. split; [reflexivity | right; left; now split].
  - discriminate.
  - intros code C. injection C as <-. split; [reflexivity |].
    right; right. exists n. now split.
  - intros _. now exists l.
  - discriminate.
Qed.

Lemma returned_results_witness :
  fetchContextFromNia JsonText.parse (always (completion citedAnswer))
                      "what is chunking" "key" 1
  = Returned (Some {| content := citedAnswer; sources := Some ["a"; "b"];
                      statusCode := None |})
             {| retryCount := 0; timeoutRetryCount := 0; lastError := None;
                attempts := 1; waits := [] |}
  /\ Origin {| content := citedAnswer; sources := Some ["a"; "b"]; statusCode := None |}.
Proof.
  split; [reflexivity |].
  destruct (returned_results_by_origin JsonText.parse (always (completion citedAnswer))
              "what is chunking" "key" 1 _ _ eq_refl) as (r & E & O & _).
  injection E as <-. exact O.
Defined.

(** ** The JSON path on documents that are no completion and on bodies
    that are no JSON *)

Lemma readJson_shape_mismatch (JSON_parse : string -> option JSON) (r : Response)
      (data : JSON) :
  JSON_parse (bodyText r) = Some data ->
  shapeMismatch data = true ->
  readJson JSON_parse r = inr invalidFormatResult.
Proof.
  intros P M. unfold readJson. rewrite P. cbv zeta.
  unfold shapeMismatch in M. now rewrite M.
Qed.

(** C8, where the code departs from the claim.  A document that parses
    and fails one of the four shape tests gives the invalid-format message
    with status 500, as claimed.  A body that does not parse does not come
    back as its first 2000 code units: [response.json()] has read the
    body, so the [response.text()] of the fallback rejects, the error goes
    to the [catch] of the loop as a generic-class error, and the request
    is sent again.  Only a response without a body reaches the fallback
    result, with the empty content.  Against a server that keeps sending
    the same body the engine never returns. *)
Theorem unparsable_body_is_retried
        (JSON_parse : string -> option JSON) (r : Response) :
  ok r = true ->
  isEventStream r = false ->
  (forall data,
      JSON_parse (bodyText r) = Some data ->
      shapeMismatch data = true ->
      readResponse JSON_parse r
      = inr {| content := invalidFormatMessage; sources := None; statusCode := Some 500%Z |})
  /\
  (forall b,
      body r = Some b ->
      JSON_parse b = None ->
      readResponse JSON_parse r = inl bodyUnusable
      /\ isTimeout bodyUnusable = false
      /\ forall query apiKey fuel,
           fetchContextFromNia JSON_parse (always r) query apiKey fuel
           = Pending {| retryCount := fuel; timeoutRetryCount := 0;
                        lastError := match fuel with O => None | S _ => Some bodyUnusable end;
                        attempts := fuel;
                        waits := map backoffMs (seq 1 (Nat.min fuel 2)) |})
  /\
  (body r = None ->
   JSON_parse EmptyString = None ->
   readResponse JSON_parse r
   = inr {| content := EmptyString; sources := Some []; statusCode := None |}).
Proof.
  intros Hok Hct. rewrite (readResponse_json JSON_parse r Hok Hct).
  split; [| split].
  - intros data P M. now apply readJson_shape_mismatch with (data := data).
  - intros b B P.
    assert (R : readJson JSON_parse r = inl bodyUnusable).
    { unfold readJson, bodyText, plainTextFallback, textAfterJson. now rewrite B, P. }
    split; [exact R | split; [reflexivity |]].
    intros query apiKey fuel. unfold fetchContextFromNia.
    change startState with (genericState bodyUnusable 0).
    rewrite retryLoop_generic; [reflexivity | reflexivity |].
    intros i. unfold always. cbn [attempt].
    now rewrite (readResponse_json JSON_parse r Hok Hct).
  - intros B P. unfold readJson, bodyText, plainTextFallback, textAfterJson.
    now rewrite B, P.
Qed.

Lemma unparsable_body_witness :
  readResponse JsonText.parse warmingUp = inl bodyUnusable
  /\ fetchContextFromNia JsonText.parse (always warmingUp) "what is this" "key" 6
     = Pending {| retryCount := 6; timeoutRetryCount := 0; lastError := Some bodyUnusable;
                  attempts := 6; waits := [2000; 4000] |}
  /\ readResponse JsonText.parse emptyObject = inr invalidFormatResult.
Proof.
  destruct (unparsable_body_is_retried JsonText.parse warmingUp eq_refl eq_refl)
    as (_ & Retry & _).
  destruct (Retry _ eq_refl eq_refl) as (R & _ & Loop).
  destruct (unparsable_body_is_retried JsonText.parse emptyObject eq_refl eq_refl)
    as (Shape & _ & _).
  split; [exact R | split].
  - exact (Loop "what is this" "key" 6).
  - exact (Shape (JObj []) eq_refl eq_refl).
Defined.

(** ** The engine returns an object *)

Lemma append_same (a b : string) : a ++ b = a -> b = EmptyString.
Proof.
  induction a as [|c a IH]; simpl; intros H; [exact H |].
  injection H as H. now apply IH.
Qed.

Lemma formatResponse_not_failed (query : string) (r : FetchResult) :
  formatResponse query (Some r) <> failedMessage.
Proof.
  unfold formatResponse.
  destruct (_ || _); [discriminate |].
  destruct (statusIs _ 402); [discriminate |].
  destruct (statusTruthy _).
  - intros H. apply append_same in H. discriminate H.
  - discriminate.
Qed.

Lemma readJson_other_content (JSON_parse : string -> option JSON) (r : Response)
      (data : JSON) :
  JSON_parse (bodyText r) = Some data ->
  shapeMismatch data = false ->
  (forall t, messageContent data <> Some (JStr t)) ->
  readJson JSON_parse r = plainTextFallback r.
Proof.
  intros P M N. unfold readJson. rewrite P. cbv zeta.
  unfold shapeMismatch in M. rewrite M.
  unfold messageContent in N.
  destruct (optMember _ "content") as [[| | |t| |]|]; try reflexivity.
  now elim (N t).
Qed.

(** C10: a run of the engine that ends returns an object, never [null],
    so the answer of the handler for a result of the engine is never the
    text of its branch for a null result.  The content of the object is a
    string: on the JSON path a [choices[0].message.content] that is no
    string is not returned, the call of its [match] method throws and the
    code goes on with the plain-text fallback. *)
Theorem engine_never_returns_null
        (JSON_parse : string -> option JSON) (network : nat -> Request -> Outcome)
        (query apiKey : string) :
  (forall fuel result st,
      fetchContextFromNia JSON_parse network query apiKey fuel = Returned result st ->
      exists r : FetchResult,
        result = Some r /\ formatResponse query result <> failedMessage)
  /\
  (forall r data,
      JSON_parse (bodyText r) = Some data ->
      shapeMismatch data = false ->
      (forall t, messageContent data <> Some (JStr t)) ->
      readJson JSON_parse r = plainTextFallback r).
Proof.
  split.
  - intros fuel result st H. apply retryLoop_origin in H. destruct H as [r [-> _]].
    exists r. split; [reflexivity | apply formatResponse_not_failed].
  - intros r data. apply readJson_other_content.
Qed.

Lemma engine_never_returns_null_witness :
  fetchContextFromNia JsonText.parse (always unauthorized) "what is this" "key" 1
  = Returned (Some (statusResult 401))
             {| retryCount := 0; timeoutRetryCount := 0; lastError := None;
                attempts := 1; waits := [] |}
  /\ (formatResponse "what is this" (Some (statusResult 401)) =? failedMessage)%string = false.
Proof.
  split; [reflexivity |].
  destruct (proj1 (engine_never_returns_null JsonText.parse (always unauthorized)
                     "what is this" "key") 1 _ _ eq_refl) as (r & E & N).
  apply String.eqb_neq. exact N.
Defined.

(** * Properties of the retry loop, the decoders, the command line and the endpoints *)

(** ** The retry loop: one iteration *)

Lemma retryLoop_caught (JSON_parse : string -> option JSON)
      (network : nat -> Request -> Outcome) (query apiKey : string)
      (fuel : nat) (st : RetryState) (e : Thrown) :
  inLoop st = true ->
  attempt JSON_parse (network (attempts st) (request query apiKey)) = inl e ->
  retryLoop JSON_parse network query apiKey (S fuel) st
  = if exhausted (caught st e)
    then Returned (Some (allRetriesFailed (caught st e))) (caught st e)
    else retryLoop JSON_parse network query apiKey fuel (caught st e).
Proof.
  unfold inLoop. intros L A. cbn [retryLoop]. rewrite L, A.
  unfold caught, exhausted. destruct (isTimeout e).
  - cbn [retryCount timeoutRetryCount].
    destruct (S (timeoutRetryCount st) <? maxTimeoutRetries) eqn:B; [| reflexivity].
    apply Nat.ltb_lt in B.
    replace (maxTimeoutRetries <=? S (timeoutRetryCount st)) with false
      by (symmetry; apply Nat.leb_gt; exact B).
    now rewrite andb_false_r.
  - reflexivity.
Qed.

Lemma inLoop_not_exhausted (st : RetryState) : inLoop st = negb (exhausted st).
Proof.
  unfold inLoop, exhausted. rewrite negb_andb, !Nat.leb_antisym, !negb_involutive.
  reflexivity.
Qed.

Lemma retryLoop_step (JSON_parse : string -> option JSON)
      (network : nat -> Request -> Outcome) (query apiKey : string)
      (fuel : nat) (st : RetryState) :
  retryLoop JSON_parse network query apiKey (S fuel) st
  = if inLoop st then
      match attempt JSON_parse (network (attempts st) (request query apiKey)) with
      | inr result => Returned (Some result) (afterCall st)
      | inl e =>
          if exhausted (caught st e)
          then Returned (Some (allRetriesFailed (caught st e))) (caught st e)
          else retryLoop JSON_parse network query apiKey fuel (caught st e)
      end
    else Returned (Some (allRetriesFailed st)) st.
Proof.
  destruct (inLoop st) eqn:L.
  - destruct (attempt JSON_parse (network (attempts st) (request query apiKey))) as [e|r] eqn:A.
    + now apply retryLoop_caught.
    + now apply retryLoop_returns.
  - unfold inLoop in L. cbn [retryLoop]. now rewrite L.
Qed.

(** ** Counting the failures *)

Lemma caught_counters (st : RetryState) (e : Thrown) :
  retryCount (caught st e) = retryCount st + (if isTimeout e then 0 else 1)
  /\ timeoutRetryCount (caught st e) = timeoutRetryCount st + (if isTimeout e then 1 else 0)
  /\ attempts (caught st e) = S (attempts st).
Proof. unfold caught. destruct (isTimeout e); cbn; repeat split; lia. Qed.

Lemma afterErrors_counters (errors : list Thrown) :
  forall st,
    retryCount (afterErrors errors st) = retryCount st + genericIn errors
    /\ timeoutRetryCount (afterErrors errors st) = timeoutRetryCount st + timeoutsIn errors
    /\ attempts (afterErrors errors st) = attempts st + List.length errors.
Proof.
  unfold afterErrors, genericIn, timeoutsIn.
  induction errors as [|e errors IH]; intros st; cbn [fold_left filter List.length].
  - repeat split; lia.
  - destruct (IH (caught st e)) as (R & T & A).
    destruct (caught_counters st e) as (R' & T' & A').
    rewrite R, T, A, R', T', A'.
    destruct (isTimeout e); cbn [negb List.length]; repeat split; lia.
Qed.

Lemma exhausted_counts (st : RetryState) :
  exhausted st = false <-> retryCount st < 3 \/ timeoutRetryCount st < 5.
Proof.
  unfold exhausted, maxRetries, maxTimeoutRetries.
  rewrite andb_false_iff, !Nat.leb_gt. reflexivity.
Qed.

Lemma exhausted_caught (st : RetryState) (e : Thrown) :
  exhausted (caught st e) = false -> exhausted st = false.
Proof.
  rewrite !exhausted_counts. destruct (caught_counters st e) as (R & T & _).
  rewrite R, T. lia.
Qed.

Lemma exhausted_afterErrors (errors : list Thrown) :
  forall st, exhausted (afterErrors errors st) = false -> exhausted st = false.
Proof.
  induction errors as [|e errors IH]; intros st H; [exact H |].
  apply (exhausted_caught st e). now apply IH.
Qed.

(** As long as one of the two counters is under its bound, failures only
    move the loop on. *)
Lemma failures_keep_running (JSON_parse : string -> option JSON)
      (network : nat -> Request -> Outcome) (query apiKey : string)
      (errors : list Thrown) :
  forall st fuel,
    (forall i e, nth_error errors i = Some e ->
                 attempt JSON_parse (network (attempts st + i) (request query apiKey)) = inl e) ->
    exhausted (afterErrors errors st) = false ->
    retryLoop JSON_parse network query apiKey (List.length errors + fuel) st
    = retryLoop JSON_parse network query apiKey fuel (afterErrors errors st).
Proof.
  induction errors as [|e errors IH]; intros st fuel F X; [reflexivity |].
  cbn [List.length Nat.add]. rewrite retryLoop_step.
  pose proof (exhausted_afterErrors errors (caught st e) X) as X1.
  pose proof (exhausted_caught st e X1) as X0.
  rewrite inLoop_not_exhausted, X0. cbn [negb].
  pose proof (F 0 e eq_refl) as A. rewrite Nat.add_0_r in A. rewrite A, X1.
  apply IH; [| exact X].
  intros i e' N. destruct (caught_counters st e) as (_ & _ & ->).
  replace (S (attempts st) + i) with (attempts st + S i) by lia.
  now apply F.
Qed.

(** ** Responses with a non-success status, after failed calls too *)

(** C3, as amended: a response with a non-success status makes the engine
    return the empty content with that status in the iteration that gets
    it: the call is the last one, and the response moves no counter and
    adds no wait.  The counters are what the failed calls before it made
    them, the numbers of generic-class and of timeout-class failures; they
    are both zero when the response answers the first call.  For 401 and
    403 the formatter gives the authentication message, written out
    below, and nothing of a content. *)
Theorem non_success_status_returns_at_once
        (JSON_parse : string -> option JSON) (network : nat -> Request -> Outcome)
        (query apiKey : string) (fuel : nat) (response : Response) :
  ok response = false ->
  (forall st,
      inLoop st = true ->
      network (attempts st) (request query apiKey) = Resolves response ->
      retryLoop JSON_parse network query apiKey (S fuel) st
      = Returned (Some {| content := EmptyString; sources := None;
                          statusCode := Some (status response) |})
                 {| retryCount := retryCount st; timeoutRetryCount := timeoutRetryCount st;
                    lastError := lastError st; attempts := S (attempts st);
                    waits := waits st |})
  /\
  (forall errors,
      failsWith JSON_parse network query apiKey errors ->
      genericIn errors < 3 \/ timeoutsIn errors < 5 ->
      network (List.length errors) (request query apiKey) = Resolves response ->
      fetchContextFromNia JSON_parse network query apiKey (List.length errors + S fuel)
      = Returned (Some {| content := EmptyString; sources := None;
                          statusCode := Some (status response) |})
                 {| retryCount := genericIn errors;
                    timeoutRetryCount := timeoutsIn errors;
                    lastError := lastError (afterErrors errors startState);
                    attempts := S (List.length errors);
                    waits := waits (afterErrors errors startState) |})
  /\
  (network 0 (request query apiKey) = Resolves response ->
   fetchContextFromNia JSON_parse network query apiKey (S fuel)
   = Returned (Some {| content := EmptyString; sources := None;
                       statusCode := Some (status response) |})
              {| retryCount := 0; timeoutRetryCount := 0; lastError := None;
                 attempts := 1; waits := [] |})
  /\
  (status response = 401%Z \/ status response = 403%Z ->
   formatResponse query (Some {| content := EmptyString; sources := None;
                                 statusCode := Some (status response) |})
   = "Authentication error. Please make sure you're using a valid API key from your Nia account.").
Proof.
  intros Hok.
  assert (G : forall st, inLoop st = true ->
                network (attempts st) (request query apiKey) = Resolves response ->
                retryLoop JSON_parse network query apiKey (S fuel) st
                = Returned (Some (statusResult (status response))) (afterCall st)).
  { intros st L N. apply retryLoop_returns; [exact L |].
    rewrite N. cbn [attempt]. now apply readResponse_not_ok. }
  split; [exact G | split; [| split]].
  - intros errors F B N. unfold fetchContextFromNia.
    destruct (afterErrors_counters errors startState) as (R & T & A).
    cbn [startState retryCount timeoutRetryCount attempts Nat.add] in R, T, A.
    assert (X : exhausted (afterErrors errors startState) = false)
      by (apply exhausted_counts; rewrite R, T; exact B).
    rewrite failures_keep_running; [| exact F | exact X].
    rewrite G.
    + unfold afterCall, statusResult. now rewrite R, T, A.
    + rewrite inLoop_not_exhausted, X. reflexivity.
    + now rewrite A.
  - intros N. exact (G startState eq_refl N).
  - intros [E | E]; unfold formatResponse; cbn [statusCode]; rewrite E; reflexivity.
Qed.

Lemma non_success_status_witness :
  fetchContextFromNia JsonText.parse (always unauthorized) "what is this" "key" 1
  = Returned (Some {| content := EmptyString; sources := None; statusCode := Some 401%Z |})
             {| retryCount := 0; timeoutRetryCount := 0; lastError := None;
                attempts := 1; waits := [] |}
  /\ fetchContextFromNia JsonText.parse (failingThen [refused; aborted] unauthorized)
                         "what is this" "key" (2 + 1)
     = Returned (Some {| content := EmptyString; sources := None; statusCode := Some 401%Z |})
                {| retryCount := 1; timeoutRetryCount := 1; lastError := Some refused;
                   attempts := 3; waits := [2000; 1000] |}
  /\ formatResponse "what is this"
       (Some {| content := EmptyString; sources := None; statusCode := Some 401%Z |})
     = "Authentication error. Please make sure you're using a valid API key from your Nia account.".
Proof.
  pose proof (non_success_status_returns_at_once
                JsonText.parse (always unauthorized) "what is this" "key" 0 unauthorized
                eq_refl) as (_ & _ & First & Auth).
  pose proof (non_success_status_returns_at_once
                JsonText.parse (failingThen [refused; aborted] unauthorized)
                "what is this" "key" 0 unauthorized eq_refl) as (_ & Later & _ & _).
  split; [exact (First eq_refl) | split; [| exact (Auth (or_introl eq_refl))]].
  apply (Later [refused; aborted]).
  - intros i e N. destruct i as [|[|i]]; cbn in N;
      try (injection N as <-; reflexivity); destruct i; discriminate N.
  - left. cbn. lia.
  - reflexivity.
Defined.

(** C3, as stated, fails: a response with status 401 that answers the
    second call, after the first ran into the abort, is returned with the
    timeout counter at one, not with both counters at zero. *)
Lemma status_after_a_failed_call :
  ok unauthorized = false
  /\ fetchContextFromNia JsonText.parse (failingThen [aborted] unauthorized)
                         "what is this" "key" 2
     = Returned (Some {| content := EmptyString; sources := None; statusCode := Some 401%Z |})
                {| retryCount := 0; timeoutRetryCount := 1; lastError := None;
                   attempts := 2; waits := [1000] |}.
Proof. repeat split. Qed.

(** X1.  The first call that does not throw decides the result: when the
    calls before it failed with [errors] and these left one of the two
    budgets unspent (fewer than 3 generic-class or fewer than 5
    timeout-class failures), the engine returns what the response of that
    call reads to, after one more call than there were failures, with the
    counters at the numbers of failures of each class. *)
Theorem first_result_is_returned
        (JSON_parse : string -> option JSON) (network : nat -> Request -> Outcome)
        (query apiKey : string) (errors : list Thrown) (result : FetchResult)
        (fuel : nat) :
  failsWith JSON_parse network query apiKey errors ->
  attempt JSON_parse (network (List.length errors) (request query apiKey)) = inr result ->
  genericIn errors < 3 \/ timeoutsIn errors < 5 ->
  List.length errors < fuel ->
  fetchContextFromNia JSON_parse network query apiKey fuel
  = Returned (Some result)
             {| retryCount := genericIn errors;
                timeoutRetryCount := timeoutsIn errors;
                lastError := lastError (afterErrors errors startState);
                attempts := S (List.length errors);
                waits := waits (afterErrors errors startState) |}.
Proof.
  intros F A B L. unfold fetchContextFromNia.
  destruct (afterErrors_counters errors startState) as (R & T & N).
  cbn [startState retryCount timeoutRetryCount attempts Nat.add] in R, T, N.
  assert (X : exhausted (afterErrors errors startState) = false)
    by (apply exhausted_counts; rewrite R, T; exact B).
  replace fuel with (List.length errors + S (fuel - S (List.length errors))) by lia.
  rewrite failures_keep_running; [| exact F | exact X].
  rewrite retryLoop_returns with (result := result).
  - unfold afterCall. now rewrite R, T, N.
  - rewrite inLoop_not_exhausted, X. reflexivity.
  - now rewrite N.
Qed.

Lemma failsWith_prefix (JSON_parse : string -> option JSON)
      (network : nat -> Request -> Outcome) (query apiKey : string)
      (errors more : list Thrown) :
  failsWith JSON_parse network query apiKey (errors ++ more) ->
  failsWith JSON_parse network query apiKey errors.
Proof.
  intros F i e N. apply F. rewrite nth_error_app1; [exact N |].
  apply nth_error_Some. now rewrite N.
Qed.

(** X2.  The loop is left without a result exactly at the failure that
    spends the second budget: when the failures before it left one budget
    unspent and with it at least 3 generic-class and 5 timeout-class
    failures are counted, the engine returns the timed-out result with
    status 408, whose message states the number of timeout-class
    failures, whichever class the last failure was of. *)
Theorem both_budgets_spent_returns_408
        (JSON_parse : string -> option JSON) (network : nat -> Request -> Outcome)
        (query apiKey : string) (errors : list Thrown) (e : Thrown) (fuel : nat) :
  failsWith JSON_parse network query apiKey (errors ++ [e]) ->
  genericIn errors < 3 \/ timeoutsIn errors < 5 ->
  3 <= genericIn (errors ++ [e]) ->
  5 <= timeoutsIn (errors ++ [e]) ->
  List.length errors < fuel ->
  fetchContextFromNia JSON_parse network query apiKey fuel
  = Returned (Some (timedOutResult (timeoutsIn (errors ++ [e]))))
             (afterErrors (errors ++ [e]) startState)
  /\ attempts (afterErrors (errors ++ [e]) startState) = S (List.length errors)
  /\ statusCode (timedOutResult (timeoutsIn (errors ++ [e]))) = Some 408%Z.
Proof.
  intros F B G T L. unfold fetchContextFromNia.
  destruct (afterErrors_counters errors startState) as (R0 & T0 & N0).
  destruct (afterErrors_counters (errors ++ [e]) startState) as (R1 & T1 & N1).
  cbn [startState retryCount timeoutRetryCount attempts Nat.add] in R0, T0, N0, R1, T1, N1.
  assert (X0 : exhausted (afterErrors errors startState) = false)
    by (apply exhausted_counts; rewrite R0, T0; exact B).
  assert (E : afterErrors (errors ++ [e]) startState
              = caught (afterErrors errors startState) e)
    by (unfold afterErrors; now rewrite fold_left_app).
  assert (X1 : exhausted (afterErrors (errors ++ [e]) startState) = true).
  { unfold exhausted, maxRetries, maxTimeoutRetries. rewrite R1, T1.
    apply andb_true_iff. split; apply Nat.leb_le; assumption. }
  split; [| split; [| reflexivity]].
  - replace fuel with (List.length errors + S (fuel - S (List.length errors))) by lia.
    rewrite failures_keep_running;
      [| exact (failsWith_prefix _ _ _ _ _ _ F) | exact X0].
    rewrite retryLoop_step, inLoop_not_exhausted, X0. cbn [negb].
    rewrite N0. rewrite (F (List.length errors) e).
    + rewrite <- E, X1. rewrite allRetriesFailed_timed_out; [now rewrite T1 |].
      unfold exhausted in X1. apply andb_true_iff in X1. exact (proj2 X1).
    + rewrite nth_error_app2, Nat.sub_diag by lia. reflexivity.
  - rewrite N1, length_app. cbn. lia.
Qed.

(** ** Bookkeeping that every run keeps *)

Lemma sumWaits_app (l : list nat) (w : nat) :
  sumWaits (l ++ [w]) = (sumWaits l + Z.of_nat w)%Z.
Proof. unfold sumWaits. induction l as [|x l IH]; cbn [app fold_right]; lia. Qed.

Lemma accounted_start : accounted startState.
Proof. unfold accounted. cbn. repeat split; constructor. Qed.

Lemma accounted_caught (st : RetryState) (e : Thrown) :
  accounted st -> accounted (caught st e).
Proof.
  unfold accounted, totalWait, caught. intros (A & L & F & W).
  destruct (isTimeout e); cbn [retryCount timeoutRetryCount attempts waits].
  - split; [lia |].
    destruct (timeoutRetryCount st) as [|[|[|[|n]]]];
      cbn [Nat.ltb Nat.leb maxTimeoutRetries];
      rewrite ?length_app, ?sumWaits_app, ?L, ?W; cbn [List.length];
      (split; [rewrite ?Nat.min_0_r; cbn; lia |]);
      (split; [first [exact F
                      | apply Forall_app; split;
                        [exact F
                        | apply Forall_cons; [apply Nat.leb_le; reflexivity | apply Forall_nil]]] |]);
      cbn [genericWaited timeoutWaited]; lia.
  - split; [lia |].
    destruct (retryCount st) as [|[|n]];
      cbn [Nat.ltb Nat.leb maxRetries];
      rewrite ?length_app, ?sumWaits_app, ?L, ?W; cbn [List.length];
      (split; [rewrite ?Nat.min_0_r; cbn; lia |]);
      (split; [first [exact F
                      | apply Forall_app; split;
                        [exact F
                        | apply Forall_cons; [apply Nat.leb_le; reflexivity | apply Forall_nil]]] |]);
      try (change (Z.of_nat (backoffMs 1)) with 2000%Z);
      try (change (Z.of_nat (backoffMs 2)) with 4000%Z);
      cbn [genericWaited timeoutWaited]; lia.
Qed.

Lemma accounted_bounds (st : RetryState) :
  accounted st ->
  List.length (waits st) <= 6
  /\ Forall (fun w => w <= 4000) (waits st)
  /\ (totalWait st <= 16000)%Z.
Proof.
  intros (_ & L & F & W). split; [lia | split; [exact F |]].
  rewrite W. unfold genericWaited, timeoutWaited.
  destruct (retryCount st) as [|[|n]]; destruct (timeoutRetryCount st) as [|[|[|[|m]]]]; lia.
Qed.

Lemma retryLoop_ending (JSON_parse : string -> option JSON)
      (network : nat -> Request -> Outcome) (query apiKey : string) :
  forall fuel st,
    accounted st ->
    match retryLoop JSON_parse network query apiKey fuel st with
    | Pending st' => accounted st' /\ attempts st' = attempts st + fuel
    | Returned result st' =>
        attempts st' <= attempts st + fuel
        /\ ((accounted st' /\ exhausted st' = true
             /\ result = Some (allRetriesFailed st'))
            \/ (exists st0 response r,
                   accounted st0 /\ st' = afterCall st0
                   /\ network (attempts st0) (request query apiKey) = Resolves response
                   /\ readResponse JSON_parse response = inr r
                   /\ result = Some r))
    end.
Proof.
  induction fuel as [|fuel IH]; intros st A.
  - cbn. split; [exact A | lia].
  - rewrite retryLoop_step. destruct (inLoop st) eqn:L.
    + destruct (attempt _ _) as [e|r] eqn:T.
      * pose proof (accounted_caught st e A) as A'.
        destruct (caught_counters st e) as (_ & _ & N).
        destruct (exhausted (caught st e)) eqn:X.
        -- split; [lia | left; split; [exact A' | split; [exact X | reflexivity]]].
        -- specialize (IH (caught st e) A').
           destruct (retryLoop _ _ _ _ fuel (caught st e)) as [st'|res st'].
           ++ destruct IH as [I1 I2]. split; [exact I1 | lia].
           ++ destruct IH as [I1 I2]. split; [lia | exact I2].
      * split; [cbn; lia |]. right.
        destruct (network (attempts st) (request query apiKey)) as [e|response] eqn:N;
          [discriminate T |].
        cbn [attempt] in T. exists st, response, r.
        split; [exact A | split; [reflexivity | split; [exact N | split; [exact T | reflexivity]]]].
    + split; [lia | left]. rewrite inLoop_not_exhausted in L.
      apply negb_false_iff in L. split; [exact A | split; [exact L | reflexivity]].
Qed.

(** X3.  Whatever the network does and however long the run, the engine
    makes one call of [fetch] per iteration, waits at most six times,
    never longer than 4000 ms at once (the cap of 10000 ms on the
    exponential backoff is never reached) and at most 16000 ms in all.
    The number of calls is the sum of the two counters while the loop
    runs and when it is left with the timed-out result, every call having
    failed; it is that sum plus one when the run ended with what the
    response of the last call was read to. *)
Theorem run_bookkeeping
        (JSON_parse : string -> option JSON) (network : nat -> Request -> Outcome)
        (query apiKey : string) (fuel : nat) :
  let run := fetchContextFromNia JSON_parse network query apiKey fuel in
  let st := stateOf run in
  attempts st <= fuel
  /\ List.length (waits st) <= 6
  /\ Forall (fun w => w <= 4000) (waits st)
  /\ (totalWait st <= 16000)%Z
  /\ match run with
     | Pending _ =>
         attempts st = fuel
         /\ attempts st = retryCount st + timeoutRetryCount st
     | Returned result _ =>
         (result = Some (timedOutResult (timeoutRetryCount st))
          /\ attempts st = retryCount st + timeoutRetryCount st)
         \/ (exists response r,
                network (retryCount st + timeoutRetryCount st) (request query apiKey)
                = Resolves response
                /\ readResponse JSON_parse response = inr r
                /\ result = Some r
                /\ attempts st = S (retryCount st + timeoutRetryCount st))
     end.
Proof.
  cbv zeta. unfold fetchContextFromNia.
  pose proof (retryLoop_ending JSON_parse network query apiKey fuel startState
                               accounted_start) as H.
  destruct (retryLoop JSON_parse network query apiKey fuel startState) as [st|res st];
    cbn [stateOf].
  - destruct H as [A N]. cbn [startState attempts Nat.add] in N.
    destruct (accounted_bounds st A) as (B1 & B2 & B3).
    pose proof (proj1 A) as C.
    split; [lia |]. split; [exact B1 |]. split; [exact B2 |]. split; [exact B3 |].
    split; [exact N | exact C].
  - destruct H as [N [(A & X & R) | (st0 & response & r & A & -> & W & D & R)]];
      cbn [startState attempts Nat.add] in N.
    + destruct (accounted_bounds st A) as (B1 & B2 & B3). pose proof (proj1 A) as C.
      split; [exact N |]. split; [exact B1 |]. split; [exact B2 |]. split; [exact B3 |].
      left. split; [| exact C].
      rewrite R. f_equal. apply allRetriesFailed_timed_out.
      unfold exhausted in X. apply andb_true_iff in X. exact (proj2 X).
    + destruct (accounted_bounds st0 A) as (B1 & B2 & B3). pose proof (proj1 A) as C.
      unfold afterCall, totalWait in *. cbn [attempts retryCount timeoutRetryCount waits] in *.
      split; [exact N |]. split; [exact B1 |]. split; [exact B2 |]. split; [exact B3 |].
      right. exists response, r. rewrite <- C.
      split; [exact W | split; [exact D | split; [exact R | reflexivity]]].
Qed.

Lemma run_bookkeeping_witness :
  fetchContextFromNia JsonText.parse
    (failingThen [aborted; refused; aborted] plainCompletion) "list the modules" "key" 9
  = Returned (Some {| content := "The parser is a Pratt parser."; sources := Some [];
                      statusCode := None |}) answeredState
  /\ attempts answeredState <= 9
  /\ List.length (waits answeredState) <= 6
  /\ Forall (fun w => w <= 4000) (waits answeredState)
  /\ (totalWait answeredState <= 16000)%Z
  /\ attempts answeredState
     = S (retryCount answeredState + timeoutRetryCount answeredState).
Proof.
  pose proof (run_bookkeeping JsonText.parse
                (failingThen [aborted; refused; aborted] plainCompletion)
                "list the modules" "key" 9) as H.
  cbv zeta in H.
  assert (E : fetchContextFromNia JsonText.parse
                (failingThen [aborted; refused; aborted] plainCompletion)
                "list the modules" "key" 9
              = Returned (Some {| content := "The parser is a Pratt parser.";
                                  sources := Some []; statusCode := None |})
                         answeredState) by reflexivity.
  rewrite E in H. cbn [stateOf] in H.
  destruct H as (H1 & H2 & H3 & H4 & H5).
  split; [exact E |].
  split; [exact H1 |]. split; [exact H2 |]. split; [exact H3 |]. split; [exact H4 |].
  destruct H5 as [[T _] | (response & r & _ & _ & _ & N)]; [discriminate T | exact N].
Defined.

(** ** Where a status 408 with a message comes from *)

Lemma readResponse_status (JSON_parse : string -> option JSON) (r : Response)
      (result : FetchResult) (code : Z) :
  readResponse JSON_parse r = inr result ->
  statusCode result = Some code ->
  content result = EmptyString \/ result = invalidFormatResult.
Proof.
  intros H C. pose proof (readResponse_origin _ _ _ H) as O.
  assert (N : forall n, readResponse JSON_parse r <> inr (timedOutResult n)).
  { intros n. unfold readResponse.
    destruct (negb (ok r)); [discriminate |].
    assert (J : readJson JSON_parse r <> inr (timedOutResult n)).
    { unfold readJson. unfold plainTextFallback.
      destruct (JSON_parse (bodyText r)); [| destruct (textAfterJson r); discriminate].
      cbv zeta. destruct (_ || _); [discriminate |].
      destruct (optMember _ "content") as [[| | |t| |]|];
        try (destruct (textAfterJson r); discriminate); discriminate. }
    destruct (contentType r); [| exact J].
    destruct (_ && _); [discriminate | exact J]. }
  destruct O as [code' | | n | c l].
  - now left.
  - now right.
  - now elim (N n).
  - discriminate C.
Qed.

Lemma retryLoop_timed_out (JSON_parse : string -> option JSON)
      (network : nat -> Request -> Outcome) (query apiKey : string) :
  forall fuel st r st',
    accounted st ->
    retryLoop JSON_parse network query apiKey fuel st = Returned (Some r) st' ->
    statusCode r = Some 408%Z ->
    content r <> EmptyString ->
    exhausted st' = true
    /\ r = timedOutResult (timeoutRetryCount st')
    /\ attempts st' = retryCount st' + timeoutRetryCount st'.
Proof.
  induction fuel as [|fuel IH]; intros st r st' A H C N; [discriminate |].
  rewrite retryLoop_step in H.
  assert (X : forall s, accounted s -> exhausted s = true ->
                        Returned (Some (allRetriesFailed s)) s = Returned (Some r) st' ->
                        exhausted st' = true
                        /\ r = timedOutResult (timeoutRetryCount st')
                        /\ attempts st' = retryCount st' + timeoutRetryCount st').
  { intros s As Xs E. injection E as <- <-. split; [exact Xs | split; [| exact (proj1 As)]].
    apply allRetriesFailed_timed_out. unfold exhausted in Xs.
    apply andb_true_iff in Xs. exact (proj2 Xs). }
  destruct (inLoop st) eqn:L.
  - destruct (attempt _ _) as [e|res] eqn:T.
    + pose proof (accounted_caught st e A) as A'.
      destruct (exhausted (caught st e)) eqn:E.
      * now apply (X (caught st e)).
      * now apply (IH (caught st e)).
    + injection H as <- _.
      destruct (network _ _) as [e|resp]; [discriminate T |].
      cbn [attempt] in T.
      destruct (readResponse_status _ _ _ _ T C) as [Z | ->]; [now elim N | discriminate C].
  - apply (X st A); [| exact H].
    rewrite inLoop_not_exhausted in L. now apply negb_false_iff in L.
Qed.

(** X4.  A result with status 408 and a message is only ever returned with
    both budgets spent: at least 3 generic-class and at least 5
    timeout-class failures were counted, so at least 8 calls were made and
    all of them failed; the message states the timeout counter. *)
Theorem timed_out_message_needs_both_budgets
        (JSON_parse : string -> option JSON) (network : nat -> Request -> Outcome)
        (query apiKey : string) (fuel : nat) (r : FetchResult) (st : RetryState) :
  fetchContextFromNia JSON_parse network query apiKey fuel = Returned (Some r) st ->
  statusCode r = Some 408%Z ->
  content r <> EmptyString ->
  3 <= retryCount st
  /\ 5 <= timeoutRetryCount st
  /\ attempts st = retryCount st + timeoutRetryCount st
  /\ 8 <= attempts st
  /\ r = timedOutResult (timeoutRetryCount st).
Proof.
  intros H C N.
  destruct (retryLoop_timed_out _ _ _ _ fuel startState r st accounted_start H C N)
    as (X & R & A).
  unfold exhausted, maxRetries, maxTimeoutRetries in X.
  apply andb_true_iff in X. destruct X as [X1 X2].
  apply Nat.leb_le in X1, X2. repeat split; try assumption; lia.
Qed.

Lemma timed_out_message_witness :
  fetchContextFromNia JsonText.parse refusedThenAborted "how does it work" "key" 8
  = Returned (Some (timedOutResult 5)) spentState
  /\ 3 <= retryCount spentState
  /\ 5 <= timeoutRetryCount spentState
  /\ attempts spentState = retryCount spentState + timeoutRetryCount spentState
  /\ 8 <= attempts spentState
  /\ timedOutResult 5 = timedOutResult (timeoutRetryCount spentState).
Proof.
  assert (H : fetchContextFromNia JsonText.parse refusedThenAborted "how does it work" "key" 8
              = Returned (Some (timedOutResult 5)) spentState) by reflexivity.
  assert (C : statusCode (timedOutResult 5) = Some 408%Z) by reflexivity.
  assert (N : content (timedOutResult 5) <> EmptyString) by discriminate.
  split; [exact H |].
  exact (timed_out_message_needs_both_budgets JsonText.parse refusedThenAborted
           "how does it work" "key" 8 (timedOutResult 5) spentState H C N).
Defined.

(** ** Generic-class failures on every call *)

Lemma retryLoop_generic_failures (JSON_parse : string -> option JSON)
      (network : nat -> Request -> Outcome) (query apiKey : string) :
  (forall i, exists e,
        attempt JSON_parse (network i (request query apiKey)) = inl e
        /\ isTimeout e = false) ->
  forall fuel n last,
  exists last',
    retryLoop JSON_parse network query apiKey fuel
              {| retryCount := n; timeoutRetryCount := 0; lastError := last;
                 attempts := n; waits := map backoffMs (seq 1 (Nat.min n 2)) |}
    = Pending {| retryCount := n + fuel; timeoutRetryCount := 0; lastError := last';
                 attempts := n + fuel;
                 waits := map backoffMs (seq 1 (Nat.min (n + fuel) 2)) |}.
Proof.
  intros H. induction fuel as [|fuel IH]; intros n last.
  - exists last. now rewrite Nat.add_0_r.
  - destruct (H n) as [e [A T]].
    destruct (IH (S n) (Some e)) as [last' E].
    exists last'. rewrite Nat.add_succ_r, <- Nat.add_succ_l, <- E.
    rewrite retryLoop_caught with (e := e);
      [| unfold inLoop; cbn [retryCount timeoutRetryCount];
         change (0 <? maxTimeoutRetries) with true; apply orb_true_r
       | exact A].
    unfold caught, exhausted. rewrite T.
    cbn [retryCount timeoutRetryCount lastError attempts waits].
    change (maxTimeoutRetries <=? 0) with false. rewrite andb_false_r.
    pose proof (genericState_next e n) as W. cbn [genericState waits] in W.
    now rewrite W.
Qed.

(** X5.  When every call ends in a generic-class error (a refused
    connection, or a success response whose body is no JSON) the engine
    never returns: [retryCount] counts every call and passes 3, the
    backoffs 2000 and 4000 ms are waited after the first two failures, and
    from the third failure on the request is sent again without any
    wait. *)
Theorem generic_failures_on_every_call_never_return
        (JSON_parse : string -> option JSON) (network : nat -> Request -> Outcome)
        (query apiKey : string) :
  (forall i, exists e,
        attempt JSON_parse (network i (request query apiKey)) = inl e
        /\ isTimeout e = false) ->
  forall fuel,
  exists last,
    fetchContextFromNia JSON_parse network query apiKey fuel
    = Pending {| retryCount := fuel; timeoutRetryCount := 0; lastError := last;
                 attempts := fuel;
                 waits := map backoffMs (seq 1 (Nat.min fuel 2)) |}.
Proof.
  intros H fuel.
  destruct (retryLoop_generic_failures _ _ _ _ H fuel 0 None) as [last E].
  exists last. exact E.
Qed.

Lemma generic_failures_witness :
  exists last,
    fetchContextFromNia JsonText.parse (alwaysFails refused) "list the modules" "key" 7
    = Pending {| retryCount := 7; timeoutRetryCount := 0; lastError := last;
                 attempts := 7; waits := [2000; 4000] |}.
Proof.
  apply (generic_failures_on_every_call_never_return
           JsonText.parse (alwaysFails refused) "list the modules" "key").
  intros i. exists refused. split; reflexivity.
Defined.

(** ** Witnesses of the theorems on failures before a result *)

Lemma first_result_witness :
  fetchContextFromNia JsonText.parse
    (failingThen [aborted; refused; aborted] plainCompletion) "list the modules" "key" 4
  = Returned (Some {| content := "The parser is a Pratt parser."; sources := Some [];
                      statusCode := None |})
             {| retryCount := 1; timeoutRetryCount := 2; lastError := Some refused;
                attempts := 4; waits := [1000; 2000; 2000] |}.
Proof.
  apply (first_result_is_returned JsonText.parse
           (failingThen [aborted; refused; aborted] plainCompletion)
           "list the modules" "key" [aborted; refused; aborted]).
  - intros i e N. destruct i as [|[|[|i]]]; cbn in N;
      try (injection N as <-; reflexivity); destruct i; discriminate N.
  - reflexivity.
  - left. cbn. lia.
  - cbn. lia.
Defined.

Lemma both_budgets_spent_witness :
  fetchContextFromNia JsonText.parse
    (failingWith [aborted; aborted; aborted; aborted; aborted; aborted; aborted;
                  refused; refused] refused) "list the modules" "key" 10
  = Returned (Some (timedOutResult 7))
             {| retryCount := 3; timeoutRetryCount := 7; lastError := Some refused;
                attempts := 10; waits := [1000; 2000; 3000; 4000; 2000; 4000] |}.
Proof.
  apply (proj1 (both_budgets_spent_returns_408 JsonText.parse
           (failingWith [aborted; aborted; aborted; aborted; aborted; aborted; aborted;
                         refused; refused] refused)
           "list the modules" "key"
           [aborted; aborted; aborted; aborted; aborted; aborted; aborted; refused; refused]
           refused 10
           ltac:(intros i e N; do 10 (destruct i as [|i]; [cbn in N; injection N as <-; reflexivity |]);
                 destruct i; discriminate N)
           ltac:(left; cbn; lia) ltac:(cbn; lia) ltac:(cbn; lia) ltac:(cbn; lia))).
Defined.

(** ** What the extraction of sources can return *)

Lemma quoted_inv (s id : string) :
  quoted s = Some id ->
  includes id "`" = false /\ exists rest, s = id ++ String backtick rest.
Proof.
  revert id. induction s as [|c s IH]; intros id H; [discriminate |].
  cbn [quoted] in H. destruct (Ascii.eqb_spec c backtick) as [->|N].
  - injection H as <-. split; [reflexivity | now exists s].
  - destruct (quoted s) as [id'|]; [| discriminate]. injection H as <-.
    destruct (IH id' eq_refl) as [B [rest ->]]. split; [| now exists rest].
    rewrite includes_cons. change "`" with (String backtick EmptyString).
    rewrite prefix_cons. destruct (ascii_dec backtick c) as [E|_]; [now elim N | exact B].
Qed.

Lemma entry_inv (s id : string) :
  entry s = Some id ->
  isIdentifier id = true /\ exists rest, s = "- `" ++ id ++ String backtick rest.
Proof.
  unfold entry. destruct (prefix "- `" s) eqn:P; [| discriminate].
  destruct (quoted (drop 3 s)) as [[|c q]|] eqn:Q; try discriminate.
  intros H. injection H as <-.
  destruct (quoted_inv _ _ Q) as [B [rest E]].
  split.
  - unfold isIdentifier. now rewrite B.
  - exists rest. rewrite (prefix_split _ _ P) at 1. cbn [String.length]. now rewrite E.
Qed.

Lemma execAll_inv (id : string) (s : string) :
  forall k,
    In id (execAll s k) ->
    isIdentifier id = true
    /\ exists a rest, s = a ++ "- `" ++ id ++ String backtick rest.
Proof.
  induction s as [|c s IH]; intros k H; [contradiction |].
  assert (Tail : In id (execAll s 0) \/ (exists j, In id (execAll s j)) ->
                 isIdentifier id = true
                 /\ exists a rest, String c s = a ++ "- `" ++ id ++ String backtick rest).
  { intros [T | [j T]]; destruct (IH _ T) as [V (a & rest & ->)];
      (split; [exact V | now exists (String c a), rest]). }
  cbn [execAll] in H. destruct k as [|k]; [| apply Tail; right; now exists k].
  destruct (entry (String c s)) as [id0|] eqn:E; [| apply Tail; now left].
  destruct H as [<- | H]; [| apply Tail; right; eexists; exact H].
  destruct (entry_inv _ _ E) as [V [rest R]].
  split; [exact V | now exists EmptyString, rest].
Qed.

Lemma sectionAt_inv (s group : string) :
  sectionAt s = Some group -> exists rest, s = header ++ group ++ rest.
Proof.
  unfold sectionAt. destruct (prefix header s) eqn:P; [| discriminate].
  pose proof (prefix_split _ _ P) as S0.
  remember (drop (String.length header) s) as t eqn:T. clear T.
  destruct (entriesLength t 0) as [|n]; [discriminate |].
  intros H. assert (G : group = take (S n) t) by congruence.
  exists (drop (S n) t). rewrite G, take_drop. exact S0.
Qed.

Lemma sourceMatch_inv (s group : string) :
  sourceMatch s = Some group -> exists a rest, s = a ++ header ++ group ++ rest.
Proof.
  induction s as [|c s IH]; rewrite sourceMatch_unfold;
    destruct (sectionAt _) as [g|] eqn:E.
  - intros H. injection H as <-. destruct (sectionAt_inv _ _ E) as [rest R].
    now exists EmptyString, rest.
  - discriminate.
  - intros H. injection H as <-. destruct (sectionAt_inv _ _ E) as [rest R].
    now exists EmptyString, rest.
  - intros H. destruct (IH H) as (a & rest & ->). now exists (String c a), rest.
Qed.

(** X6.  The extraction of sources never invents an identifier: every
    string it returns is not empty, holds no backtick, and stands in the
    content between backticks after "- ", in the text that follows a
    header line; a content without the header line gives no sources. *)
Theorem sources_come_from_the_content (content : string) :
  (forall id,
      In id (extractSources content) ->
      isIdentifier id = true
      /\ exists before between after,
           content = before ++ header ++ between ++ ("- `" ++ id ++ "`") ++ after)
  /\ (includes content header = false -> extractSources content = []).
Proof.
  unfold extractSources. split.
  - intros id H. destruct (sourceMatch content) as [g|] eqn:M; [| contradiction].
    destruct (execAll_inv _ _ _ H) as [V (a & rest & G)].
    destruct (sourceMatch_inv _ _ M) as (before & after & ->).
    split; [exact V |]. exists before, a, (rest ++ after).
    rewrite G. change (String backtick rest) with ("`" ++ rest).
    now rewrite !append_assoc.
  - intros N. destruct (sourceMatch content) as [g|] eqn:M; [| reflexivity].
    destruct (sourceMatch_inv _ _ M) as (before & after & E).
    assert (I : includes content header = true)
      by (apply includes_iff; now exists before, (g ++ after)).
    rewrite N in I. discriminate.
Qed.

Lemma sources_come_from_the_content_witness :
  extractSources "Sources: see `src/index.ts`" = []
  /\ extractSources citedAnswer = ["a"; "b"]
  /\ isIdentifier "a" = true.
Proof.
  split; [| split; [reflexivity |]].
  - apply (proj2 (sources_come_from_the_content "Sources: see `src/index.ts`")). reflexivity.
  - apply (proj1 (sources_come_from_the_content citedAnswer) "a"). left. reflexivity.
Defined.

(** ** Streams without the data prefix *)

Lemma eventFragment_no_prefix (JSON_parse : string -> option JSON) (event : string) :
  startsWith event "data: " = false -> eventFragment JSON_parse event = EmptyString.
Proof.
  intros H. unfold eventFragment, eventKind. rewrite H.
  destruct (isEmpty (trim event)); [reflexivity |].
  now destruct (includes event "data: [DONE]").
Qed.

Lemma concatAll_empty (l : list string) :
  (forall x, In x l -> x = EmptyString) -> concatAll l = EmptyString.
Proof.
  induction l as [|x l IH]; intros H; [reflexivity |].
  cbn [concatAll fold_right]. rewrite (H x (or_introl eq_refl)).
  apply IH. intros y Y. apply H. now right.
Qed.

(** X7.  Only an event that begins with the six code units "data: " is
    read.  A body none of whose events begins so (the data line comes
    after an event line or an id line, or the colon is not followed by a
    space) is turned into the empty answer with an empty sources list, and
    no error is reported. *)
Theorem events_without_data_prefix_are_dropped
        (JSON_parse : string -> option JSON) (textResponse : string) :
  (forall event, In event (split textResponse (nl ++ nl)) ->
                 startsWith event "data: " = false) ->
  readStream JSON_parse textResponse
  = {| content := EmptyString; sources := Some []; statusCode := None |}.
Proof.
  intros H. unfold readStream. rewrite fold_processEvent. cbn [append].
  rewrite concatAll_empty; [reflexivity |].
  intros x X. apply in_map_iff in X. destruct X as [event [<- I]].
  apply eventFragment_no_prefix. now apply H.
Qed.

Lemma events_without_data_prefix_witness :
  readStream JsonText.parse namedEventStream
  = {| content := EmptyString; sources := Some []; statusCode := None |}
  /\ readStream JsonText.parse compactStream
     = {| content := EmptyString; sources := Some []; statusCode := None |}.
Proof.
  split.
  - apply (events_without_data_prefix_are_dropped JsonText.parse namedEventStream).
    intros event [<- | [<- | [<- | []]]]; reflexivity.
  - apply (events_without_data_prefix_are_dropped JsonText.parse compactStream).
    intros event [<- | [<- | [<- | []]]]; reflexivity.
Defined.

(** ** The documents the JSON path accepts *)

Lemma shapeMismatch_hasMessage (data : JSON) :
  shapeMismatch data = false <-> hasMessage data.
Proof.
  unfold shapeMismatch, hasMessage. split.
  - intros H. apply orb_false_iff in H. destruct H as [H T4].
    apply orb_false_iff in H. destruct H as [H T3].
    apply orb_false_iff in H. destruct H as [T1 T2].
    apply negb_false_iff in T1, T2, T3, T4.
    destruct data as [| | | | |m]; try discriminate T2. cbn [member] in *.
    destruct (lookup "choices" m) as [c|] eqn:C; [| discriminate T2].
    destruct (optFirst (Some c)) as [f|] eqn:F; [| discriminate T3].
    destruct (optMember (Some f) "message") as [msg|] eqn:M; [| discriminate T4].
    destruct (optMember_object _ _ _ M) as [fm E]. injection E as ->.
    exists m, c, fm, msg.
    split; [reflexivity |]. split; [exact C |].
    split; [| split; [exact M | exact T4]].
    destruct c; try discriminate F; exact F.
  - intros (m & c & fm & msg & -> & C & F & M & T). cbn [member truthy negb orb].
    rewrite C.
    assert (Tc : truthy (Some c) = true).
    { destruct c as [| | |s|l|mc]; try discriminate F; try reflexivity. now destruct s. }
    assert (Fc : optFirst (Some c) = Some (JObj fm)) by (destruct c; try discriminate F; exact F).
    rewrite Tc, Fc. cbn [truthy negb orb optMember member]. now rewrite M, T.
Qed.

(** X8.  The JSON path answers with the invalid-format message and status
    500 exactly for the documents that are not an object whose [choices]
    has a first element that is an object with a truthy [message]: so for
    [null], numbers, strings and arrays, for a missing or empty [choices],
    and for a first choice without a message. *)
Theorem invalid_format_documents
        (JSON_parse : string -> option JSON) (r : Response) (data : JSON) :
  JSON_parse (bodyText r) = Some data ->
  (~ hasMessage data -> readJson JSON_parse r = inr invalidFormatResult)
  /\ (hasMessage data -> readJson JSON_parse r <> inr invalidFormatResult).
Proof.
  intros P. split.
  - intros N. apply readJson_shape_mismatch with (data := data); [exact P |].
    destruct (shapeMismatch data) eqn:S; [reflexivity |].
    elim N. now apply shapeMismatch_hasMessage.
  - intros H. apply shapeMismatch_hasMessage in H.
    unfold readJson. rewrite P. cbv zeta. unfold shapeMismatch in H. rewrite H.
    unfold plainTextFallback.
    destruct (optMember _ "content") as [[| | |t| |]|];
      try (destruct (textAfterJson r); discriminate); discriminate.
Qed.

Lemma invalid_format_witness :
  readJson JsonText.parse (jsonResponse ("{" ++ JsonText.field "choices" "[]" ++ "}"))
  = inr invalidFormatResult
  /\ readJson JsonText.parse (jsonResponse "[1, 2]") = inr invalidFormatResult.
Proof.
  split.
  - apply (proj1 (invalid_format_documents JsonText.parse
                    (jsonResponse ("{" ++ JsonText.field "choices" "[]" ++ "}"))
                    (JObj [("choices", JArr [])]) eq_refl)).
    intros (m & c & fm & msg & E & C & F & _). injection E as <-.
    cbn in C. injection C as <-. discriminate F.
  - apply (proj1 (invalid_format_documents JsonText.parse (jsonResponse "[1, 2]")
                    (JArr [JsonText.integer 1; JsonText.integer 2]) eq_refl)).
    intros (m & c & fm & msg & E & _). discriminate E.
Defined.

(** ** How much of a long content the formatter keeps *)

Lemma len_append (a b : string) : len (a ++ b) = (len a + len b)%Z.
Proof. unfold len. rewrite length_append. lia. Qed.

Lemma take_length (n : nat) (s : string) :
  n <= String.length s -> String.length (take n s) = n.
Proof.
  revert s; induction n as [|n IH]; intros [|c s] H; simpl in *; try lia.
  rewrite IH; lia.
Qed.

Lemma lastIndexOf_range (content pat : string) (pos : Z) :
  (0 <= pos)%Z ->
  lastIndexOf content pat pos = (-1)%Z
  \/ (0 <= lastIndexOf content pat pos <= pos
      /\ lastIndexOf content pat pos <= len content
      /\ prefix pat (drop (Z.to_nat (lastIndexOf content pat pos)) content) = true)%Z.
Proof.
  intros Hp. unfold lastIndexOf, len.
  destruct (lastIndexFrom_spec pat content 0 (Z.to_nat pos) (-1) (Nat.le_0_l _))
    as [[R _] | [j [R [Hj [Hi [T _]]]]]].
  - now left.
  - right. rewrite R. cbn [Nat.add] in *. rewrite Nat2Z.id. repeat split; try lia. exact T.
Qed.

(** X9.  A content longer than 10000 code units is never cut short of
    7501: the formatted body starts with a prefix of the content that is
    more than 7500 and at most 10000 code units long.  Either that prefix
    ends where a paragraph break starts, and the note follows it at once;
    or it is the first 10000 code units, no paragraph break starts at
    index 10000, and "..." stands between it and the note.  The note is
    two line feeds and the sentence in brackets with the length of the
    whole content.  Whatever the content, the body is at most 10003 code
    units and the note long. *)
Theorem trimmed_body_bounds (content : string) :
  ((10000 < len content)%Z ->
   exists kept : Z,
     (7500 < kept <= 10000)%Z
     /\ len (take (Z.to_nat kept) content) = kept
     /\ ((breakAt content kept = true
          /\ trimmedContent content
             = take (Z.to_nat kept) content
               ++ nl ++ nl ++ "[Content trimmed for display. The original response was "
               ++ ofZ (len content) ++ " characters long.]")
         \/ (kept = 10000%Z
             /\ breakAt content kept = false
             /\ trimmedContent content
                = take (Z.to_nat kept) content ++ "..."
                  ++ nl ++ nl ++ "[Content trimmed for display. The original response was "
                  ++ ofZ (len content) ++ " characters long.]")))
  /\ (len (trimmedContent content)
      <= 10003 + len (nl ++ nl ++ "[Content trimmed for display. The original response was "
                      ++ ofZ (len content) ++ " characters long.]"))%Z.
Proof.
  assert (K : forall kept : Z,
             (0 <= kept)%Z -> (kept <= len content)%Z ->
             len (take (Z.to_nat kept) content) = kept).
  { intros kept H0 H1. unfold len in *. rewrite take_length; lia. }
  change (nl ++ nl ++ "[Content trimmed for display. The original response was "
          ++ ofZ (len content) ++ " characters long.]")
    with (trimNote (len content)).
  unfold trimmedContent, maxResponseLength.
  destruct (10000 <? len content)%Z eqn:L.
  - apply Z.ltb_lt in L. cbv zeta.
    destruct (7500 <? lastIndexOf content (nl ++ nl) 10000)%Z eqn:B.
    + apply Z.ltb_lt in B.
      destruct (lastIndexOf_range content (nl ++ nl) 10000 ltac:(lia)) as [E | (R1 & R2 & R3)];
        [lia |].
      split.
      * intros _. exists (lastIndexOf content (nl ++ nl) 10000).
        split; [lia | split; [apply K; lia | left; split; [exact R3 | reflexivity]]].
      * rewrite len_append, K by lia. lia.
    + apply Z.ltb_ge in B. split.
      * intros _. exists 10000%Z. split; [lia | split; [apply K; lia | right]].
        split; [reflexivity | split; [| reflexivity]].
        destruct (breakAt content 10000) eqn:A; [| reflexivity].
        rewrite (lastIndexOf_last_break content 10000 10000) in B;
          [lia | lia | exact A | intros j Hj; lia].
      * rewrite !len_append, K by lia. change (len "...") with 3%Z. lia.
  - apply Z.ltb_ge in L. split; [lia |].
    assert (0 <= len (trimNote (len content)))%Z by (unfold len; lia). lia.
Qed.

Lemma trimmed_body_bounds_witness :
  exists kept : Z,
    (7500 < kept <= 10000)%Z
    /\ len (take (Z.to_nat kept) longAnswer) = kept
    /\ ((breakAt longAnswer kept = true
         /\ trimmedContent longAnswer
            = take (Z.to_nat kept) longAnswer
              ++ nl ++ nl ++ "[Content trimmed for display. The original response was "
              ++ "12000" ++ " characters long.]")
        \/ (kept = 10000%Z
            /\ breakAt longAnswer kept = false
            /\ trimmedContent longAnswer
               = take (Z.to_nat kept) longAnswer ++ "..."
                 ++ nl ++ nl ++ "[Content trimmed for display. The original response was "
                 ++ "12000" ++ " characters long.]")).
Proof.
  assert (L : ofZ (len longAnswer) = "12000") by (vm_compute; reflexivity).
  rewrite <- L.
  apply (proj1 (trimmed_body_bounds longAnswer)). vm_compute. reflexivity.
Defined.

(** ** What the handler shows of a failure *)

(** X10.  The messages the engine writes for its own failures never reach
    the user: a result that carries a status code and a content that is
    not empty has status 500 (invalid response format) or 408 (timed
    out), and the handler answers it with the fixed text that names the
    status code only. *)
Theorem failure_messages_are_not_shown
        (JSON_parse : string -> option JSON) (network : nat -> Request -> Outcome)
        (query apiKey : string) (fuel : nat) (r : FetchResult) (st : RetryState)
        (code : Z) :
  fetchContextFromNia JSON_parse network query apiKey fuel = Returned (Some r) st ->
  statusCode r = Some code ->
  content r <> EmptyString ->
  (code = 500%Z \/ code = 408%Z)
  /\ formatResponse query (Some r)
     = "Failed to retrieve context from Nia API: HTTP error " ++ ofZ code.
Proof.
  intros H C N. pose proof H as O. apply retryLoop_origin in O.
  destruct O as [r' [E O]]. injection E as <-.
  destruct O as [code' | | n | c l]; cbn [statusCode content] in C, N.
  - now elim N.
  - injection C as <-. split; [now left | reflexivity].
  - injection C as <-. split; [now right | reflexivity].
  - discriminate C.
Qed.

Lemma failure_messages_witness :
  formatResponse "list the modules" (Some invalidFormatResult)
  = "Failed to retrieve context from Nia API: HTTP error 500".
Proof.
  assert (N : content invalidFormatResult <> EmptyString) by discriminate.
  exact (proj2 (failure_messages_are_not_shown JsonText.parse (always emptyObject)
                  "list the modules" "key" 1 _ _ _ eq_refl eq_refl N)).
Defined.

(** ** Which queries get the elaboration *)

Lemma includes_longer (s pat more : string) :
  includes s (pat ++ more) = true -> includes s pat = true.
Proof.
  rewrite !includes_iff. intros (a & b & ->). exists a, (more ++ b).
  now rewrite append_assoc.
Qed.

Lemma lowerChar_idempotent (c : ascii) : lowerChar (lowerChar c) = lowerChar c.
Proof. destruct c as [[] [] [] [] [] [] [] []]; reflexivity. Qed.

Lemma toLowerCase_idempotent (s : string) : toLowerCase (toLowerCase s) = toLowerCase s.
Proof.
  induction s as [|c s IH]; [reflexivity |].
  cbn [toLowerCase]. now rewrite lowerChar_idempotent, IH.
Qed.

(** X11.  The elaboration, written out below, is appended exactly to the
    queries whose lowercase form contains "repo", "what" or "how"
    anywhere, inside a longer word too: the message differs from the
    query for these and for no others, and the fourth trigger of the
    source, "repository", adds nothing.  The decision does not depend on
    the case of the letters, and the text of the query is sent unchanged
    in front. *)
Theorem elaboration_triggers (query : string) :
  let lower := toLowerCase query in
  let triggered :=
    includes lower "repo" = true \/ includes lower "what" = true
    \/ includes lower "how" = true in
  let suffix :=
    " - Please provide detailed information about the repository's purpose, architecture, and key components." in
  (triggered -> enhancedQuery query = query ++ suffix)
  /\ (~ triggered -> enhancedQuery query = query)
  /\ (enhancedQuery query <> query <-> triggered)
  /\ (enhancedQuery (toLowerCase query) = toLowerCase query ++ suffix
      <-> enhancedQuery query = query ++ suffix)
  /\ prefix query (enhancedQuery query) = true.
Proof.
  cbv zeta.
  change " - Please provide detailed information about the repository's purpose, architecture, and key components."
    with elaboration.
  assert (D : forall q,
             includes (toLowerCase q) "repo" || includes (toLowerCase q) "repository"
             || includes (toLowerCase q) "what" || includes (toLowerCase q) "how" = true
             <-> (includes (toLowerCase q) "repo" = true
                  \/ includes (toLowerCase q) "what" = true
                  \/ includes (toLowerCase q) "how" = true)).
  { intros q. rewrite !orb_true_iff. split.
    - intros [[[H | H] | H] | H]; auto. left.
      apply (includes_longer _ "repo" "sitory"). exact H.
    - intros [H | [H | H]]; auto. }
  assert (Y : forall q,
             (includes (toLowerCase q) "repo" = true \/ includes (toLowerCase q) "what" = true
              \/ includes (toLowerCase q) "how" = true)
             <-> enhancedQuery q = q ++ elaboration).
  { intros q. rewrite <- D. unfold enhancedQuery.
    destruct (_ || _); split; intros E; try reflexivity; try discriminate E.
    symmetry in E. apply append_same in E. discriminate E. }
  assert (N : forall q, enhancedQuery q = q -> enhancedQuery q <> q ++ elaboration).
  { intros q E F. rewrite E in F. symmetry in F. apply append_same in F. discriminate F. }
  split; [apply Y | split; [| split; [| split]]].
  - intros T. unfold enhancedQuery.
    destruct (_ || _) eqn:E; [| reflexivity]. elim T. now apply D.
  - split.
    + intros T. apply Y. unfold enhancedQuery in *.
      destruct (_ || _); [reflexivity | now elim T].
    + intros T E. apply Y in T. exact (N query E T).
  - rewrite <- !Y, toLowerCase_idempotent. reflexivity.
  - unfold enhancedQuery. destruct (_ || _).
    + apply prefix_append.
    + rewrite <- (append_nil_r query) at 2. apply prefix_append.
Qed.

Lemma elaboration_triggers_witness :
  enhancedQuery "Show the reporting module"
  = "Show the reporting module - Please provide detailed information about the repository's purpose, architecture, and key components."
  /\ enhancedQuery "List the exported symbols" = "List the exported symbols".
Proof.
  split.
  - apply (proj1 (elaboration_triggers "Show the reporting module")). left. reflexivity.
  - apply (proj1 (proj2 (elaboration_triggers "List the exported symbols"))).
    intros [H | [H | H]]; discriminate H.
Defined.

(** ** The command line *)

Lemma prefix_single_absent (c x : ascii) (a rest : string) :
  includes (String x a) (String c EmptyString) = false ->
  prefix (String c EmptyString) (String x rest) = false.
Proof.
  rewrite includes_cons, !prefix_cons.
  destruct (ascii_dec c x); [| reflexivity]. now rewrite prefix_nil.
Qed.

Lemma includes_tail (x : ascii) (a pat : string) :
  includes (String x a) pat = false -> includes a pat = false.
Proof. rewrite includes_cons. now destruct (prefix pat (String x a)). Qed.

Lemma splitFrom_single_absent (c : ascii) (a : string) :
  forall cur,
    includes a (String c EmptyString) = false ->
    splitFrom (String c EmptyString) a 0 cur = [cur ++ a].
Proof.
  induction a as [|x a IH]; intros cur H; cbn [splitFrom].
  - now rewrite append_nil_r.
  - rewrite (prefix_single_absent c x a a H), IH by exact (includes_tail _ _ _ H).
    now rewrite append_assoc.
Qed.

Lemma splitFrom_single_sep (c : ascii) (a b : string) :
  forall cur,
    includes a (String c EmptyString) = false ->
    splitFrom (String c EmptyString) (a ++ String c b) 0 cur
    = (cur ++ a) :: splitFrom (String c EmptyString) b 0 EmptyString.
Proof.
  induction a as [|x a IH]; intros cur H.
  - cbn [append splitFrom]. rewrite prefix_cons.
    destruct (ascii_dec c c) as [_|N]; [| now elim N].
    rewrite prefix_nil, append_nil_r. reflexivity.
  - change (String x a ++ String c b) with (String x (a ++ String c b)).
    cbn [splitFrom]. rewrite (prefix_single_absent c x a _ H).
    rewrite IH by exact (includes_tail _ _ _ H). now rewrite append_assoc.
Qed.

(** The key and the value that [readArg] sees in [--key=value]. *)
Lemma flag_parts (key v : string) :
  includes key "=" = false ->
  split (drop 2 ("--" ++ key ++ "=" ++ v)) "=" = key :: split v "=".
Proof.
  intros H. cbn [append drop]. unfold split.
  change ("=" ++ v) with (String "=" v).
  now rewrite splitFrom_single_sep.
Qed.

Lemma value_before_equals (k rest : string) :
  includes k "=" = false ->
  nth_error (split k "=") 0 = Some k
  /\ nth_error (split (k ++ "=" ++ rest) "=") 0 = Some k.
Proof.
  intros H. unfold split. change ("=" ++ rest) with (String "=" rest).
  now rewrite splitFrom_single_absent, splitFrom_single_sep.
Qed.

Lemma readArgs_app (pre more : list string) :
  forall options,
    Cli.readArgs options (pre ++ more)
    = match Cli.readArgs options pre with
      | inl message => inl message
      | inr options' => Cli.readArgs options' more
      end.
Proof.
  induction pre as [|arg pre IH]; intros options; [reflexivity |].
  cbn [app Cli.readArgs]. destruct (Cli.readArg options arg); [reflexivity | apply IH].
Qed.

Lemma readArg_api_key (options : Cli.Options) (v : string) :
  Cli.readArg options ("--api-key=" ++ v)
  = inr {| Cli.optApiKey := nth_error (split v "=") 0;
           Cli.optTransport := Cli.optTransport options;
           Cli.optPort := Cli.optPort options;
           Cli.optDebug := Cli.optDebug options |}.
Proof.
  unfold Cli.readArg.
  change ("--api-key=" ++ v) with ("--" ++ "api-key" ++ "=" ++ v).
  rewrite flag_parts by reflexivity.
  change (startsWith ("--" ++ "api-key" ++ "=" ++ v) "--") with (prefix EmptyString ("api-key=" ++ v)).
  rewrite prefix_nil. cbv zeta. cbn [hd nth_error String.eqb].
  destruct (split v "=") eqn:E; reflexivity.
Qed.

(** X12.  The API key is the value of the last [--api-key] flag, whatever
    the environment and the flags before it say, and of that value only
    the part before its first "=": the rest of a key that contains "=" is
    dropped without a word. *)
Theorem api_key_flag_value
        (pre : list string) (options : Cli.Options) (k rest : string) (env : Cli.Env) :
  Cli.readArgs Cli.noOptions pre = inr options ->
  includes k "=" = false ->
  k <> EmptyString ->
  (exists parsed,
      Cli.parseArgs (pre ++ ["--api-key=" ++ k]) env = inr parsed
      /\ Cli.apiKey parsed = k)
  /\ (exists parsed,
         Cli.parseArgs (pre ++ ["--api-key=" ++ k ++ "=" ++ rest]) env = inr parsed
         /\ Cli.apiKey parsed = k).
Proof.
  intros P H N. destruct (value_before_equals k rest H) as [V1 V2].
  assert (R : forall o, Cli.optApiKey o = Some k ->
                        exists parsed, Cli.resolve o env = inr parsed /\ Cli.apiKey parsed = k).
  { intros o E. unfold Cli.resolve, Cli.orElse. rewrite E.
    destruct k as [|c k]; [now elim N |]. cbn [Cli.truthyString].
    eexists. split; reflexivity. }
  split; unfold Cli.parseArgs; rewrite readArgs_app, P; cbn [Cli.readArgs];
    rewrite readArg_api_key; apply R; cbn [Cli.optApiKey]; assumption.
Qed.

Lemma api_key_flag_witness :
  Cli.parseArgs ["--api-key=old"; "--api-key=nia_live=="] (envOf [("NIA_API_KEY", "from-env")])
  = inr {| Cli.apiKey := "nia_live"; Cli.transport := "stdio"; Cli.port := Cli.Int 3000;
           Cli.debugMode := false |}
  /\ (exists parsed,
         Cli.parseArgs (["--api-key=old"] ++ ["--api-key=" ++ "nia_live" ++ "=" ++ "="])
                       (envOf [("NIA_API_KEY", "from-env")]) = inr parsed
         /\ Cli.apiKey parsed = "nia_live").
Proof.
  split; [reflexivity |].
  assert (N : "nia_live" <> EmptyString) by discriminate.
  exact (proj2 (api_key_flag_value ["--api-key=old"] _ "nia_live" "="
                  (envOf [("NIA_API_KEY", "from-env")]) eq_refl eq_refl N)).
Defined.

Lemma readArg_transport (options : Cli.Options) (v : string) :
  includes v "=" = false ->
  Cli.readArg options ("--transport=" ++ v)
  = if negb (String.eqb v "stdio") && negb (String.eqb v "sse")
    then inl ("Invalid transport: " ++ v ++ ". Accepted values: stdio, sse")
    else inr {| Cli.optApiKey := Cli.optApiKey options; Cli.optTransport := Some v;
                Cli.optPort := Cli.optPort options; Cli.optDebug := Cli.optDebug options |}.
Proof.
  intros H. unfold Cli.readArg.
  change ("--transport=" ++ v) with ("--" ++ "transport" ++ "=" ++ v).
  rewrite flag_parts by reflexivity.
  change (startsWith ("--" ++ "transport" ++ "=" ++ v) "--")
    with (prefix EmptyString ("transport=" ++ v)).
  rewrite prefix_nil. cbv zeta. cbn [hd nth_error String.eqb].
  unfold split. rewrite splitFrom_single_absent by exact H. reflexivity.
Qed.



Lemma readArgs_flags_only (args : list string) :
  forall options,
    Cli.readArgs options (filter (fun a => startsWith a "--") args)
    = Cli.readArgs options args.
Proof.
  induction args as [|arg args IH]; intros options; [reflexivity |].
  cbn [filter Cli.readArgs]. destruct (startsWith arg "--") eqn:S.
  - cbn [Cli.readArgs]. destruct (Cli.readArg options arg); [reflexivity | apply IH].
  - unfold Cli.readArg. rewrite S. apply IH.
Qed.

(** X13.  [parseArgs] looks at nothing but the arguments that begin with
    "--" and the variables NIA_API_KEY, TRANSPORT and PORT: arguments
    without the two dashes, wherever they stand, and every other variable
    of the environment (DEBUG among them) change neither the result nor
    the error. *)
Theorem only_flags_and_three_variables
        (args : list string) (env env' : Cli.Env) :
  env "NIA_API_KEY" = env' "NIA_API_KEY" ->
  env "TRANSPORT" = env' "TRANSPORT" ->
  env "PORT" = env' "PORT" ->
  Cli.parseArgs args env
  = Cli.parseArgs (filter (fun a => startsWith a "--") args) env'
  /\ Cli.main args env = Cli.main (filter (fun a => startsWith a "--") args) env'.
Proof.
  intros K T P.
  assert (E : Cli.parseArgs args env
              = Cli.parseArgs (filter (fun a => startsWith a "--") args) env').
  { unfold Cli.parseArgs. rewrite readArgs_flags_only.
    destruct (Cli.readArgs Cli.noOptions args) as [m|o]; [reflexivity |].
    unfold Cli.resolve. now rewrite K, T, P. }
  split; [exact E | unfold Cli.main; now rewrite E].
Qed.

Lemma only_flags_witness :
  Cli.main ["serve"; "--api-key=k"; "-v"; "--transport=sse"]
           (envOf [("DEBUG", "true"); ("PORT", "8080")])
  = Cli.OnSse (Cli.Int 8080) false.
Proof.
  rewrite (proj2 (only_flags_and_three_variables
                    ["serve"; "--api-key=k"; "-v"; "--transport=sse"]
                    (envOf [("DEBUG", "true"); ("PORT", "8080")])
                    (envOf [("PORT", "8080")]) eq_refl eq_refl eq_refl)).
  reflexivity.
Defined.

(** X14.  The name of the transport is checked when it comes from the
    command line and not when it comes from the environment: a
    [--transport] flag with any value but stdio and sse ends the process
    with exit code 1, while the same value in TRANSPORT is accepted, and
    [main] then connects the server to nothing. *)
Theorem transport_is_checked_on_the_command_line_only
        (pre more : list string) (options : Cli.Options) (t : string) (env : Cli.Env) :
  Cli.readArgs Cli.noOptions pre = inr options ->
  includes t "=" = false ->
  t <> EmptyString -> t <> "stdio" -> t <> "sse" ->
  Cli.main (pre ++ ("--transport=" ++ t) :: more) env
  = Cli.ExitOne ("Invalid transport: " ++ t ++ ". Accepted values: stdio, sse")
  /\ (Cli.truthyString (Cli.optTransport options) = false ->
      Cli.truthyString (Cli.orElse (Cli.optApiKey options) (env "NIA_API_KEY")) = true ->
      env "TRANSPORT" = Some t ->
      exists parsed,
        Cli.parseArgs pre env = inr parsed
        /\ Cli.transport parsed = t
        /\ Cli.main pre env = Cli.NoTransport (Cli.debugMode parsed)).
Proof.
  intros P H N S1 S2.
  apply String.eqb_neq in S1, S2.
  split.
  - unfold Cli.main, Cli.parseArgs. rewrite readArgs_app, P. cbn [Cli.readArgs].
    rewrite readArg_transport by exact H. now rewrite S1, S2.
  - intros T K E. unfold Cli.main, Cli.parseArgs. rewrite P.
    unfold Cli.resolve.
    destruct (Cli.orElse (Cli.optApiKey options) (env "NIA_API_KEY")) as [[|c k]|];
      try discriminate K.
    eexists. split; [reflexivity |]. cbn [Cli.transport Cli.debugMode].
    assert (X : Cli.show (Cli.orElse (Cli.orElse (Cli.optTransport options) (env "TRANSPORT"))
                                     (Some "stdio")) = t).
    { unfold Cli.orElse at 2. rewrite T, E. unfold Cli.orElse.
      destruct t; [now elim N | reflexivity]. }
    rewrite X, S1, S2. split; reflexivity.
Qed.

Lemma transport_witness :
  Cli.main ["--api-key=k"; "--transport=http"] emptyEnv
  = Cli.ExitOne "Invalid transport: http. Accepted values: stdio, sse"
  /\ Cli.main ["--api-key=k"] (envOf [("TRANSPORT", "http")]) = Cli.NoTransport false.
Proof.
  assert (N : "http" <> EmptyString) by discriminate.
  assert (S1 : "http" <> "stdio") by discriminate.
  assert (S2 : "http" <> "sse") by discriminate.
  split.
  - exact (proj1 (transport_is_checked_on_the_command_line_only
                    ["--api-key=k"] [] _ "http" emptyEnv eq_refl eq_refl N S1 S2)).
  - destruct (proj2 (transport_is_checked_on_the_command_line_only
                       ["--api-key=k"] [] _ "http" (envOf [("TRANSPORT", "http")])
                       eq_refl eq_refl N S1 S2) eq_refl eq_refl eq_refl)
      as (parsed & E & _ & M).
    rewrite M. injection E as <-. reflexivity.
Defined.



(** ** The SSE endpoints *)

Lemma after_app (st : Sse.State) (a b : list Sse.Event) :
  Sse.after st (a ++ b) = Sse.after (Sse.after st a) b.
Proof. unfold Sse.after. apply fold_left_app. Qed.

Lemma closed_listening (st : Sse.State) (connection : nat) :
  Sse.listening (Sse.closed st connection)
  = filter (fun c => negb (c =? connection)) (Sse.listening st).
Proof.
  unfold Sse.closed. destruct (existsb _ _) eqn:E; [reflexivity |].
  symmetry. apply forallb_filter_id. apply forallb_forall. intros c I.
  destruct (c =? connection) eqn:Q; [| reflexivity].
  apply Nat.eqb_eq in Q. subst c.
  assert (X : existsb (Nat.eqb connection) (Sse.listening st) = true)
    by (apply existsb_exists; exists connection; split; [exact I | apply Nat.eqb_refl]).
  rewrite X in E. discriminate E.
Qed.

Lemma wellFormed_handle (st : Sse.State) (e : Sse.Event) :
  wellFormed st -> wellFormed (fst (Sse.handle st e)).
Proof.
  intros [B C]. destruct e as [|q thrown|connection| |]; cbn [Sse.handle fst];
    try (split; assumption).
  - unfold Sse.getSse.
    destruct (Sse.queryTruthy q && negb (Sse.queryIs q "sse"));
      [| destruct thrown]; cbn [fst]; split; cbn [Sse.sseTransport Sse.listening Sse.accepted];
      try exact B; try discriminate.
    + apply Forall_cons; [lia |]. eapply Forall_impl; [| exact B].
      cbn beta. intros c L. lia.
    + intros k E. injection E as <-. split; [reflexivity | now left].
  - split.
    + rewrite closed_listening.
      assert (A : Sse.accepted (Sse.closed st connection) = Sse.accepted st)
        by (unfold Sse.closed; now destruct (existsb _ _)).
      rewrite A. rewrite Forall_forall in *. intros c I.
      apply filter_In in I. now apply B.
    + unfold Sse.closed.
      destruct (existsb _ _); cbn [Sse.sseTransport]; [discriminate | exact C].
Qed.

Lemma wellFormed_after (events : list Sse.Event) :
  forall st, wellFormed st -> wellFormed (Sse.after st events).
Proof.
  unfold Sse.after. induction events as [|e events IH]; intros st W; [exact W |].
  cbn [fold_left]. apply IH. now apply wellFormed_handle.
Qed.

Lemma wellFormed_run (events : list Sse.Event) : wellFormed (Sse.run events).
Proof.
  apply wellFormed_after. split; [apply Forall_nil | discriminate].
Qed.

Lemma no_connection_until_next_sse (events : list Sse.Event) :
  forall st,
    Sse.sseTransport st = None ->
    forallb (fun e => negb (isGetSse e)) events = true ->
    Sse.sseTransport (Sse.after st events) = None.
Proof.
  unfold Sse.after. induction events as [|e events IH]; intros st N F; [exact N |].
  cbn [forallb] in F. apply andb_true_iff in F. destruct F as [E F].
  cbn [fold_left]. apply IH; [| exact F].
  destruct e as [|q thrown|connection| |]; cbn [Sse.handle fst]; try exact N.
  - discriminate E.
  - unfold Sse.closed. now destruct (existsb _ _).
Qed.

(** X16.  A [GET /sse] that is refused takes the connection down all the
    same.  When [transportType] is given and is not "sse" the handler
    answers 400, but it has cleared [sseTransport] before the check: from
    then on, whatever the state was and until another [GET /sse] comes,
    [POST /messages] is answered with "No SSE connection established" and
    [/health] reports no connection, while no [close] listener of the
    connection that was established has run. *)
Theorem refused_sse_request_drops_the_connection
        (st : Sse.State) (q : Sse.QueryValue) (thrown : option Thrown)
        (later : list Sse.Event) :
  lets_through q = false ->
  forallb (fun e => negb (isGetSse e)) later = true ->
  snd (Sse.handle st (Sse.GetSse q thrown))
  = Sse.Status 400 ("Invalid transport type: " ++ Sse.queryText q)
  /\ Sse.listening (fst (Sse.handle st (Sse.GetSse q thrown))) = Sse.listening st
  /\ Sse.postMessages (Sse.after st (Sse.GetSse q thrown :: later)) = Sse.NoConnection
  /\ Sse.getHealth (Sse.after st (Sse.GetSse q thrown :: later)) = Sse.Health "none".
Proof.
  intros Q F. unfold lets_through in Q. apply negb_false_iff in Q.
  assert (H : Sse.handle st (Sse.GetSse q thrown)
              = ({| Sse.sseTransport := None; Sse.listening := Sse.listening st;
                    Sse.accepted := Sse.accepted st |},
                 Sse.Status 400 ("Invalid transport type: " ++ Sse.queryText q))).
  { cbn [Sse.handle]. unfold Sse.getSse. now rewrite Q. }
  assert (N : Sse.sseTransport (Sse.after st (Sse.GetSse q thrown :: later)) = None).
  { change (Sse.after st (Sse.GetSse q thrown :: later))
      with (Sse.after (fst (Sse.handle st (Sse.GetSse q thrown))) later).
    apply no_connection_until_next_sse; [now rewrite H | exact F]. }
  rewrite H. cbn [fst snd Sse.listening]. unfold Sse.postMessages, Sse.getHealth.
  rewrite N. repeat split.
Qed.

Lemma refused_sse_request_witness :
  Sse.postMessages (Sse.run [Sse.GetSse Sse.Missing None]) = Sse.Delegated 0
  /\ Sse.postMessages
       (Sse.after (Sse.run [Sse.GetSse Sse.Missing None])
                  [Sse.GetSse (Sse.Text "stdio") None; Sse.GetHealth; Sse.PostMessages])
     = Sse.NoConnection
  /\ Sse.listening (fst (Sse.handle (Sse.run [Sse.GetSse Sse.Missing None])
                                    (Sse.GetSse (Sse.Text "stdio") None)))
     = [0].
Proof.
  split; [reflexivity |].
  destruct (refused_sse_request_drops_the_connection
              (Sse.run [Sse.GetSse Sse.Missing None]) (Sse.Text "stdio") None
              [Sse.GetHealth; Sse.PostMessages] eq_refl eq_refl) as (_ & L & P & _).
  split; [exact P | exact L].
Defined.

(** X17.  [POST /messages] is handed to a connection only if that is the
    connection opened by the last accepted [GET /sse] and the request that
    opened it has not closed; [/health] then reports the connection as
    established.  This holds after every sequence of requests and [close]
    events since the start of the server. *)
Theorem messages_reach_the_latest_connection_only (events : list Sse.Event) (k : nat) :
  Sse.postMessages (Sse.run events) = Sse.Delegated k ->
  S k = Sse.accepted (Sse.run events)
  /\ In k (Sse.listening (Sse.run events))
  /\ Sse.getHealth (Sse.run events) = Sse.Health "established".
Proof.
  intros P. destruct (wellFormed_run events) as [_ C].
  unfold Sse.postMessages in P. unfold Sse.getHealth.
  destruct (Sse.sseTransport (Sse.run events)) as [c|] eqn:T; [| discriminate P].
  injection P as ->. destruct (C k eq_refl) as [A I]. repeat split; assumption.
Qed.

Lemma messages_reach_the_latest_witness :
  S 1 = Sse.accepted (Sse.run [Sse.GetSse Sse.Missing None; Sse.Closed 0;
                               Sse.GetSse (Sse.Text "sse") None])
  /\ In 1 (Sse.listening (Sse.run [Sse.GetSse Sse.Missing None; Sse.Closed 0;
                                   Sse.GetSse (Sse.Text "sse") None]))
  /\ Sse.getHealth (Sse.run [Sse.GetSse Sse.Missing None; Sse.Closed 0;
                             Sse.GetSse (Sse.Text "sse") None])
     = Sse.Health "established".
Proof.
  exact (messages_reach_the_latest_connection_only
           [Sse.GetSse Sse.Missing None; Sse.Closed 0; Sse.GetSse (Sse.Text "sse") None]
           1 eq_refl).
Defined.

(** X18.  The [close] event of a connection that has been replaced takes
    the new connection down.  When a client connects while the request of
    an earlier connection is still open, and that earlier request closes
    afterwards, its listener clears [sseTransport]: the request of the new
    connection is still open, yet [POST /messages] is answered with 400
    and [/health] reports no connection. *)
Theorem close_of_replaced_connection_disconnects
        (events : list Sse.Event) (earlier : nat) (q : Sse.QueryValue) :
  In earlier (Sse.listening (Sse.run events)) ->
  lets_through q = true ->
  snd (Sse.handle (Sse.run events) (Sse.GetSse q None))
  = Sse.Stream (Sse.accepted (Sse.run events))
  /\ Sse.postMessages (Sse.run (events ++ [Sse.GetSse q None]))
     = Sse.Delegated (Sse.accepted (Sse.run events))
  /\ In (Sse.accepted (Sse.run events))
        (Sse.listening (Sse.run (events ++ [Sse.GetSse q None; Sse.Closed earlier])))
  /\ Sse.postMessages (Sse.run (events ++ [Sse.GetSse q None; Sse.Closed earlier]))
     = Sse.NoConnection
  /\ Sse.getHealth (Sse.run (events ++ [Sse.GetSse q None; Sse.Closed earlier]))
     = Sse.Health "none".
Proof.
  intros I Q. unfold lets_through in Q. apply negb_true_iff in Q.
  destruct (wellFormed_run events) as [B _].
  assert (L : earlier < Sse.accepted (Sse.run events))
    by (rewrite Forall_forall in B; now apply B).
  unfold Sse.run in *. rewrite !after_app.
  set (st := Sse.after Sse.initial events) in *.
  assert (H : Sse.handle st (Sse.GetSse q None)
              = ({| Sse.sseTransport := Some (Sse.accepted st);
                    Sse.listening := Sse.accepted st :: Sse.listening st;
                    Sse.accepted := S (Sse.accepted st) |},
                 Sse.Stream (Sse.accepted st))).
  { cbn [Sse.handle]. unfold Sse.getSse. now rewrite Q. }
  unfold Sse.after at 1 2 3 4. cbn [fold_left]. rewrite H. cbn [fst snd Sse.handle].
  assert (X : existsb (Nat.eqb earlier) (Sse.accepted st :: Sse.listening st) = true).
  { apply existsb_exists. exists earlier. split; [now right | apply Nat.eqb_refl]. }
  unfold Sse.closed. cbn [Sse.listening Sse.sseTransport Sse.accepted]. rewrite X.
  unfold Sse.postMessages, Sse.getHealth. cbn [Sse.sseTransport Sse.listening].
  repeat split.
  apply filter_In. split; [now left |].
  apply negb_true_iff, Nat.eqb_neq. lia.
Qed.

Lemma close_of_replaced_connection_witness :
  Sse.postMessages (Sse.run ([Sse.GetSse Sse.Missing None]
                             ++ [Sse.GetSse (Sse.Text "sse") None; Sse.Closed 0]))
  = Sse.NoConnection
  /\ In 1 (Sse.listening (Sse.run ([Sse.GetSse Sse.Missing None]
                                   ++ [Sse.GetSse (Sse.Text "sse") None; Sse.Closed 0]))).
Proof.
  assert (I : In 0 (Sse.listening (Sse.run [Sse.GetSse Sse.Missing None])))
    by (left; reflexivity).
  destruct (close_of_replaced_connection_disconnects
              [Sse.GetSse Sse.Missing None] 0 (Sse.Text "sse") I eq_refl)
    as (_ & _ & L & P & _).
  split; [exact P | exact L].
Defined.
